(** * The Router of mcp_server_copilot: connection pool, construction, shutdown

    A shallow embedding of [src/router.py].  The Router keeps the registry of
    configured servers ([self.servers]), the pool of established connections
    ([self.connections]) and one matcher.  Everything the Router does to the
    outside (file system, environment, matcher, connections) is recorded in an
    event trace, and the answers of the outside are read from a [World]. *)

From Stdlib Require Import Lia Sorted.
From stdpp Require Import base option list gmap strings.

Open Scope string_scope.
Open Scope list_scope.

(** ** Python values the Router handles *)

(** A [pathlib.Path] is kept as its components; a [str] used as a path keeps
    its text.  [os.path.exists] accepts both. *)
Inductive PathLike :=
| PStr (s : string)
| PPath (parts : list string).

(** Python truthiness ([not x]) of the values tested by the source. *)
Definition str_truthy (s : string) : bool :=
  match s with EmptyString => false | _ => true end.

Definition pathlike_truthy (p : PathLike) : bool :=
  match p with
  | PStr s => str_truthy s
  | PPath _ => true
  end.

Definition opt_str_truthy (o : option string) : bool :=
  match o with
  | None => false
  | Some s => str_truthy s
  end.

(** The raw value of one entry of ["mcpServers"]: the keyword arguments
    unpacked into the [ServerConfig] constructor. *)
Definition ConfigData := list (string * string).

(** Modelled from the spec: [schemas.ServerConfig] and [schemas.Server] are not
    among the sources.  A ServerConfig is the validated, immutable description
    of one backend; a Server is [{name, config}]. *)
Record ServerConfig := { sc_data : ConfigData }.

Record Server := { srv_name : string; srv_config : ServerConfig }.

(** The configuration dictionary.  Only the key ["mcpServers"] is read, with
    [.get("mcpServers", {})]; its items keep the order of the document. *)
Record ConfigDict := { mcpServers : option (list (string * ConfigData)) }.

(** Values of other Python types a caller may pass as [config]. *)
Inductive PyOther :=
| PyNone
| PyStr (s : string)
| PyInt (n : Z)
| PyList (items : list string).

(** The [config] argument of [Router.__init__]. *)
Inductive ConfigArg :=
| ArgDict (d : ConfigDict)
| ArgPath (p : list string)
| ArgOther (v : PyOther).

(** Modelled from the spec: [mcp_connection.MCPConnection] is not among the
    sources.  A Connection is one object per [MCPConnection(server_config)]
    call: it has an identity and remembers the server it was built for.  It
    defines neither [__bool__] nor [__len__], so it is truthy. *)
Record Connection := { conn_id : nat; conn_server : Server }.

Definition Params := list (string * string).
Definition CallToolResult := string.
Definition MatchResult := list (string * string).

(** Modelled from the spec: [matcher.ToolMatcher] is not among the sources.
    The matcher is built with fixed parameters, then given its client and its
    index. *)
Record ToolMatcher := {
  embedding_model : string;
  dimensions : nat;
  top_servers : nat;
  top_tools : nat;
  client : option (string * string);
  data : option PathLike
}.

(** ** Exceptions *)

Inductive exn :=
| ValueError (msg : string)
| ConfigFileError (p : list string)
| ValidationError (name : string)
| LoadDataError (p : PathLike)
| ConnectError (c : Connection)
| CallError (c : Connection)
| CloseError (c : Connection).

(** ** Events: what the Router does to the outside *)

Inductive event :=
| EvPathExists (p : PathLike)
| EvJsonLoad (p : list string)
| EvServerNew (name : string)
| EvLoadDotenv
| EvMatcherNew
| EvGetenv (var : string)
| EvSetupClient (base_url api_key : string)
| EvLoadData (p : PathLike)
| EvMatch (query : string)
| EvConnNew (c : Connection)
| EvConnect (c : Connection)
| EvConnected (c : Connection) (ok : bool)
| EvCall (c : Connection) (tool : string) (params : Params)
| EvCalled (c : Connection) (res : option CallToolResult)
| EvClose (c : Connection)
| EvClosed (c : Connection) (ok : bool).

(** The state outside the Router object: the trace so far (oldest first), the
    next fresh object identity, and [os.environ]. *)
Record Sys := {
  trace : list event;
  next_conn : nat;
  environ : gmap string string
}.

(** The answers of the outside.  Answers of the collaborators may depend on
    everything that happened before (the trace).
    - [project_root]: [PROJECT_ROOT], the components of the resolved path;
    - [path_exists]: [Path.exists] and [os.path.exists];
    - [json_load]: what [json.load] reads from the file, [None] when the file
      does not hold a configuration and the constructor raises on it;
    - [dotenv]: the variables of the [.env] file [load_dotenv] finds;
    - [server_config_new]: [Server(name=..., config=ServerConfig(...))],
      [None] when the entry does not validate;
    - [load_data_ok]: whether [matcher.load_data] loads the index;
    - [match_result]: [matcher.match];
    - [connect_ok], [call_result], [close_ok]: whether [connect], [call_tool]
      and [aclose] of a Connection succeed, with the result of the call;
    - [close_time]: when the close of a Connection finishes, counted from the
      start of the shutdown. *)
Record World := {
  project_root : list string;
  path_exists : PathLike -> bool;
  json_load : list string -> option ConfigDict;
  dotenv : gmap string string;
  server_config_new : string -> ConfigData -> option ServerConfig;
  load_data_ok : PathLike -> bool;
  match_result : list event -> string -> MatchResult;
  connect_ok : list event -> Connection -> bool;
  call_result : list event -> Connection -> string -> Params -> option CallToolResult;
  close_ok : list event -> Connection -> bool;
  close_time : list event -> Connection -> nat
}.

Definition emit (e : event) (sys : Sys) : Sys :=
  {| trace := trace sys ++ [e]; next_conn := next_conn sys; environ := environ sys |}.

Definition emit_all (es : list event) (sys : Sys) : Sys :=
  {| trace := trace sys ++ es; next_conn := next_conn sys; environ := environ sys |}.

(** ** The Router object *)

(** [self.connections] is a Python dict that is iterated ([.values()]), so it
    keeps insertion order: an association list with dict update. *)
Definition Pool := list (string * Connection).

Fixpoint dict_get (k : string) (d : Pool) : option Connection :=
  match d with
  | [] => None
  | (k', v) :: rest => if String.eqb k k' then Some v else dict_get k rest
  end.

Fixpoint dict_set (k : string) (v : Connection) (d : Pool) : Pool :=
  match d with
  | [] => [(k, v)]
  | (k', v') :: rest =>
      if String.eqb k k' then (k', v) :: rest else (k', v') :: dict_set k v rest
  end.

Definition dict_values (d : Pool) : list Connection := map snd d.

Record Router := {
  connections : Pool;
  servers : gmap string Server;
  config : ConfigDict;
  matcher : ToolMatcher
}.

(** ** A state and exception monad for the constructor *)

Definition M (A : Type) : Type := Sys -> (exn + A) * Sys.

Definition ret {A} (a : A) : M A := fun sys => (inr a, sys).

Definition raise {A} (e : exn) : M A := fun sys => (inl e, sys).

Definition bind {A B} (m : M A) (k : A -> M B) : M B :=
  fun sys =>
    match m sys with
    | (inl e, sys') => (inl e, sys')
    | (inr a, sys') => k a sys'
    end.

Definition tell (e : event) : M unit := fun sys => (inr tt, emit e sys).

Notation "'do' x '<~' m ';' k" := (bind m (fun x => k))
  (at level 10, x name, m at level 100, k at level 200).
Notation "'do_' m ';' k" := (bind m (fun _ => k))
  (at level 10, m at level 100, k at level 200).

(** [Path.exists()] and [os.path.exists(p)]. *)
Definition exists_ (w : World) (p : PathLike) : M bool :=
  do_ tell (EvPathExists p); ret (path_exists w p).

(** [os.getenv(var)]: the value, or [None]. *)
Definition getenv (var : string) : M (option string) :=
  fun sys => (inr (environ sys !! var), emit (EvGetenv var) sys).

(** [load_dotenv()]: variables of the [.env] file are added to [os.environ];
    a variable that is already set keeps its value (override is off). *)
Definition load_dotenv (w : World) : M unit :=
  fun sys =>
    (inr tt,
     {| trace := trace sys ++ [EvLoadDotenv];
        next_conn := next_conn sys;
        environ := environ sys ∪ dotenv w |}).

(** Lines 42-52: the configuration the constructor works with. *)
Definition load_config (w : World) (arg : ConfigArg) : M ConfigDict :=
  match arg with
  | ArgDict d => ret d
  | ArgPath p =>
      do found <~ exists_ w (PPath p);
      if found then
        do_ tell (EvJsonLoad p);
        match json_load w p with
        | Some d => ret d
        | None => raise (ConfigFileError p)
        end
      else
        ret {| mcpServers := Some [] |}
  | ArgOther _ =>
      raise (ValueError "Config must be a dictionary or a Path to a JSON file.")
  end.

(** Lines 55-56: one Server per item, in order; the first entry that does not
    validate raises. *)
Fixpoint build_servers (w : World) (items : list (string * ConfigData))
    (acc : gmap string Server) : M (gmap string Server) :=
  match items with
  | [] => ret acc
  | (name, config_data) :: rest =>
      do_ tell (EvServerNew name);
      match server_config_new w name config_data with
      | Some sc =>
          build_servers w rest (<[name := {| srv_name := name; srv_config := sc |}]> acc)
      | None => raise (ValidationError name)
      end
  end.

(** Lines 61-66. *)
Definition ToolMatcher_new : M ToolMatcher :=
  do_ tell EvMatcherNew;
  ret {| embedding_model := "text-embedding-v4"; dimensions := 1024;
         top_servers := 5; top_tools := 3; client := None; data := None |}.

Definition setup_openai_client (m : ToolMatcher) (base_url api_key : string)
    : M ToolMatcher :=
  do_ tell (EvSetupClient base_url api_key);
  ret {| embedding_model := embedding_model m; dimensions := dimensions m;
         top_servers := top_servers m; top_tools := top_tools m;
         client := Some (base_url, api_key); data := data m |}.

Definition load_data (w : World) (m : ToolMatcher) (p : PathLike) : M ToolMatcher :=
  do_ tell (EvLoadData p);
  if load_data_ok w p then
    ret {| embedding_model := embedding_model m; dimensions := dimensions m;
           top_servers := top_servers m; top_tools := top_tools m;
           client := client m; data := Some p |}
  else raise (LoadDataError p).

Definition default_base_url : string :=
  "https://dashscope.aliyuncs.com/compatible-mode/v1".

(** [PROJECT_ROOT / "config" / "mcp_arg.json"]. *)
Definition default_data_path (w : World) : list string :=
  project_root w ++ ["config"; "mcp_arg.json"].

Definition pathlike_text (p : PathLike) : string :=
  match p with
  | PStr s => s
  | PPath parts => String.concat "/" parts
  end.

(** The value of [data_path], line 72: the variable if it is set, else the
    default path (a [Path], hence truthy). *)
Definition data_path_of (data_path_env : option string) (w : World) : PathLike :=
  match data_path_env with
  | Some s => PStr s
  | None => PPath (default_data_path w)
  end.

Definition data_path_error (data_path : PathLike) : exn :=
  ValueError ("MCP_DATA_PATH not set or file not found at: " +:+ pathlike_text data_path).

Definition api_key_error : exn :=
  ValueError "DASHSCOPE_API_KEY environment variable not set.".

(** Lines 58-80: the matcher and the runtime parameters. *)
Definition init_runtime (w : World) (cfg : ConfigDict) (srvs : gmap string Server)
    : M Router :=
  do_ load_dotenv w;
  do m <~ ToolMatcher_new;
  do base_url_env <~ getenv "DASHSCOPE_BASE_URL";
  let base_url := default default_base_url base_url_env in
  do api_key <~ getenv "DASHSCOPE_API_KEY";
  do data_path_env <~ getenv "MCP_DATA_PATH";
  let data_path := data_path_of data_path_env w in
  match api_key with
  | Some key =>
      if str_truthy key then
        if pathlike_truthy data_path then
          do found <~ exists_ w data_path;
          if found then
            do m1 <~ setup_openai_client m base_url key;
            do m2 <~ load_data w m1 data_path;
            ret {| connections := []; servers := srvs; config := cfg; matcher := m2 |}
          else raise (data_path_error data_path)
        else raise (data_path_error data_path)
      else raise api_key_error
  | None => raise api_key_error
  end.

(** Lines 42-56: the configuration and the registry built from it. *)
Definition init_config (w : World) (arg : ConfigArg)
    : M (ConfigDict * gmap string Server) :=
  do cfg <~ load_config w arg;
  do srvs <~ build_servers w (default [] (mcpServers cfg)) ∅;
  ret (cfg, srvs).

(** [Router.__init__], lines 33-80. *)
Definition Router_init (w : World) (arg : ConfigArg) : M Router :=
  do cs <~ init_config w arg;
  init_runtime w (fst cs) (snd cs).

(** [Router.route], lines 82-84: the matcher's answer, unchanged. *)
Definition route (w : World) (self : Router) (query : string) (sys : Sys)
    : MatchResult * Router * Sys :=
  (match_result w (trace sys) query, self, emit (EvMatch query) sys).

(** ** call_tool *)

Definition set_connections (self : Router) (pool : Pool) : Router :=
  {| connections := pool; servers := servers self;
     config := config self; matcher := matcher self |}.

Definition unknown_server (server_name : string) : exn :=
  ValueError ("Server '" +:+ server_name +:+ "' is not defined in the configuration.").

(** [MCPConnection(server_config)], line 120: a new object. *)
Definition MCPConnection_new (server_config : Server) (sys : Sys) : Connection * Sys :=
  let connection := {| conn_id := next_conn sys; conn_server := server_config |} in
  (connection,
   {| trace := trace sys ++ [EvConnNew connection];
      next_conn := S (next_conn sys);
      environ := environ sys |}).

(** [await connection.call_tool(tool_name, params or {})], line 126, run with
    nothing else in between. *)
Definition conn_call_tool (w : World) (connection : Connection) (tool_name : string)
    (params : Params) (sys : Sys) : (exn + CallToolResult) * Sys :=
  let sys1 := emit (EvCall connection tool_name params) sys in
  let res := call_result w (trace sys1) connection tool_name params in
  (match res with
   | Some result => inr result
   | None => inl (CallError connection)
   end,
   emit (EvCalled connection res) sys1).

(** [Router.call_tool], lines 108-128, for one call at a time. *)
Definition call_tool (w : World) (self : Router) (server_name tool_name : string)
    (params : option Params) (sys : Sys) : (exn + CallToolResult) * Router * Sys :=
  match dict_get server_name (connections self) with
  | Some connection =>
      let '(result, sys1) := conn_call_tool w connection tool_name (default [] params) sys in
      (result, self, sys1)
  | None =>
      match servers self !! server_name with
      | None => (inl (unknown_server server_name), self, sys)
      | Some server_config =>
          let '(connection, sys1) := MCPConnection_new server_config sys in
          let sys2 := emit (EvConnect connection) sys1 in
          let ok := connect_ok w (trace sys2) connection in
          let sys3 := emit (EvConnected connection ok) sys2 in
          if ok then
            let self1 :=
              set_connections self (dict_set server_name connection (connections self)) in
            let '(result, sys4) :=
              conn_call_tool w connection tool_name (default [] params) sys3 in
            (result, self1, sys4)
          else (inl (ConnectError connection), self, sys3)
      end
  end.

(** ** call_tool as a coroutine

    With several calls in flight, a call runs from one [await] to the next and
    the event loop may run another call in between.  The states are the two
    suspension points of the source (line 122, line 126) and the two ways to
    finish. *)
Inductive Coro :=
| CallStart (server_name tool_name : string) (params : option Params)
| AwaitConnect (server_name tool_name : string) (params : option Params)
    (connection : Connection)
| AwaitCall (connection : Connection) (tool_name : string) (params : Params)
| Returned (result : CallToolResult)
| Raised (e : exn).

(** One run of a call, from where it is suspended to its next suspension. *)
Definition resume (w : World) (k : Coro) (self : Router) (sys : Sys)
    : Coro * Router * Sys :=
  match k with
  | CallStart server_name tool_name params =>
      match dict_get server_name (connections self) with
      | Some connection =>
          (AwaitCall connection tool_name (default [] params), self,
           emit (EvCall connection tool_name (default [] params)) sys)
      | None =>
          match servers self !! server_name with
          | None => (Raised (unknown_server server_name), self, sys)
          | Some server_config =>
              let '(connection, sys1) := MCPConnection_new server_config sys in
              (AwaitConnect server_name tool_name params connection, self,
               emit (EvConnect connection) sys1)
          end
      end
  | AwaitConnect server_name tool_name params connection =>
      let ok := connect_ok w (trace sys) connection in
      let sys1 := emit (EvConnected connection ok) sys in
      if ok then
        (AwaitCall connection tool_name (default [] params),
         set_connections self (dict_set server_name connection (connections self)),
         emit (EvCall connection tool_name (default [] params)) sys1)
      else (Raised (ConnectError connection), self, sys1)
  | AwaitCall connection tool_name params =>
      let res := call_result w (trace sys) connection tool_name params in
      (match res with
       | Some result => Returned result
       | None => Raised (CallError connection)
       end, self, emit (EvCalled connection res) sys)
  | Returned _ | Raised _ => (k, self, sys)
  end.

Definition finished (k : Coro) : option (exn + CallToolResult) :=
  match k with
  | Returned result => Some (inr result)
  | Raised e => Some (inl e)
  | _ => None
  end.

(** Two calls in flight.  A schedule says which call the loop resumes next:
    [true] for the first, [false] for the second. *)
Fixpoint interleave (w : World) (schedule : list bool) (ka kb : Coro)
    (self : Router) (sys : Sys) : Coro * Coro * Router * Sys :=
  match schedule with
  | [] => (ka, kb, self, sys)
  | true :: rest =>
      let '(ka', self', sys') := resume w ka self sys in
      interleave w rest ka' kb self' sys'
  | false :: rest =>
      let '(kb', self', sys') := resume w kb self sys in
      interleave w rest ka kb' self' sys'
  end.

(** ** aclose *)

(** The close tasks in the order in which they finish: the order of their
    finishing times, ties in the order in which they were started. *)
Fixpoint insert_by_time (t : Connection -> nat) (c : Connection)
    (l : list Connection) : list Connection :=
  match l with
  | [] => [c]
  | c' :: rest =>
      if Nat.leb (t c) (t c') then c :: c' :: rest
      else c' :: insert_by_time t c rest
  end.

Definition completion_order (t : Connection -> nat) (l : list Connection)
    : list Connection :=
  foldr (insert_by_time t) [] l.

(** What [asyncio.gather] (with its default [return_exceptions=False]) does as
    its tasks finish: each finished task is counted; the first one that
    finished with an exception resolves the gather with that exception at
    once, and the tasks not yet finished are left running, neither awaited nor
    cancelled; when all finished without one, the gather resolves with the
    results. *)
Fixpoint gather_wait (w : World) (pending : list Connection) (sys : Sys)
    : (exn + unit) * Sys :=
  match pending with
  | [] => (inr tt, sys)
  | conn :: rest =>
      let ok := close_ok w (trace sys) conn in
      let sys1 := emit (EvClosed conn ok) sys in
      if ok then gather_wait w rest sys1
      else (inl (CloseError conn), sys1)
  end.

(** [Router.aclose], lines 130-134.  The list comprehension makes one
    [conn.aclose()] coroutine per pooled connection, in the order of the dict;
    [gather] turns each into a task, and every task takes its first step
    before any of them is seen to have finished. *)
Definition aclose (w : World) (self : Router) (sys : Sys)
    : (exn + unit) * Router * Sys :=
  let conns := dict_values (connections self) in
  let sys1 := emit_all (map EvClose conns) sys in
  let order := completion_order (close_time w (trace sys1)) conns in
  let '(res, sys2) := gather_wait w order sys1 in
  (res, self, sys2).

(** [Router.__aenter__] and [Router.__aexit__], lines 136-142.  [exc] is the
    exception that left the scope, if any; [__aexit__] returns [None], so that
    exception is not swallowed. *)
Definition aenter (self : Router) (sys : Sys) : Router * Router * Sys :=
  (self, self, sys).

Definition aexit (w : World) (self : Router) (exc : option exn) (sys : Sys)
    : (exn + unit) * Router * Sys :=
  aclose w self sys.

(** [async with router as r: body], as Python runs it. *)
Definition async_with {A} (w : World) (self : Router)
    (body : Router -> Router -> Sys -> (exn + A) * Router * Sys) (sys : Sys)
    : (exn + A) * Router * Sys :=
  let '(r, self0, sys0) := aenter self sys in
  let '(res, self1, sys1) := body r self0 sys0 in
  let exc := match res with inl e => Some e | inr _ => None end in
  let '(res2, self2, sys2) := aexit w self1 exc sys1 in
  (match res2 with
   | inl e2 => inl e2
   | inr _ => res
   end, self2, sys2).

(** ** Sequences of operations on one Router, one at a time *)

Inductive op :=
| OpRoute (query : string)
| OpCallTool (server_name tool_name : string) (params : option Params)
| OpClose
| OpExit (exc : option exn).

Definition run_op (w : World) (o : op) (st : Router * Sys) : Router * Sys :=
  let '(self, sys) := st in
  match o with
  | OpRoute query =>
      let '(_, self', sys') := route w self query sys in (self', sys')
  | OpCallTool server_name tool_name params =>
      let '(_, self', sys') := call_tool w self server_name tool_name params sys in
      (self', sys')
  | OpClose =>
      let '(_, self', sys') := aclose w self sys in (self', sys')
  | OpExit exc =>
      let '(_, self', sys') := aexit w self exc sys in (self', sys')
  end.

Definition run_ops (w : World) (ops : list op) (st : Router * Sys) : Router * Sys :=
  foldl (fun st o => run_op w o st) st ops.

(** ** Reading traces *)

(** The events added between an earlier state and a later one. *)
Definition events_since (before after : Sys) : list event :=
  drop (length (trace before)) (trace after).

Definition is_conn_event (e : event) : bool :=
  match e with
  | EvConnNew _ | EvConnect _ | EvConnected _ _ | EvCall _ _ _ | EvCalled _ _
  | EvClose _ | EvClosed _ _ => true
  | _ => false
  end.

(** A Connection object is made for server [s]. *)
Definition is_new_for (s : string) (e : event) : bool :=
  match e with
  | EvConnNew c => String.eqb (srv_name (conn_server c)) s
  | _ => false
  end.

(** [connect] is invoked on a Connection of server [s]. *)
Definition is_connect_for (s : string) (e : event) : bool :=
  match e with
  | EvConnect c => String.eqb (srv_name (conn_server c)) s
  | _ => false
  end.

Definition is_close_of (n : nat) (e : event) : bool :=
  match e with
  | EvClose c => Nat.eqb (conn_id c) n
  | _ => false
  end.

Definition is_closed_of (n : nat) (e : event) : bool :=
  match e with
  | EvClosed c _ => Nat.eqb (conn_id c) n
  | _ => false
  end.

Definition count (p : event -> bool) (l : list event) : nat :=
  length (List.filter p l).

(** ** Notions used to state the properties *)

(** A computation is quiet when all it adds to the trace are events that are
    not about connections, and it makes no Connection object. *)
Definition quiet {A} (m : M A) : Prop :=
  forall sys, exists es,
    trace (snd (m sys)) = trace sys ++ es /\
    Forall (fun e => is_conn_event e = false) es /\
    next_conn (snd (m sys)) = next_conn sys.

(** [os.environ] once [load_dotenv()] has run. *)
Definition effective_env (w : World) (sys : Sys) : gmap string string :=
  environ sys ∪ dotenv w.

Definition credential (w : World) (sys : Sys) : option string :=
  effective_env w sys !! "DASHSCOPE_API_KEY".

Definition data_path (w : World) (sys : Sys) : PathLike :=
  data_path_of (effective_env w sys !! "MCP_DATA_PATH") w.

(** The tool index is where [data_path] says. *)
Definition data_path_ok (w : World) (sys : Sys) : bool :=
  pathlike_truthy (data_path w sys) && path_exists w (data_path w sys).

(** The Connection object the next [MCPConnection] call makes, and the state
    of the outside while its handshake is in flight (line 122). *)
Definition new_conn (srv : Server) (sys : Sys) : Connection :=
  fst (MCPConnection_new srv sys).

Definition connecting (srv : Server) (sys : Sys) : Sys :=
  emit (EvConnect (new_conn srv sys)) (snd (MCPConnection_new srv sys)).

Definition is_close_event (e : event) : bool :=
  match e with
  | EvClose _ | EvClosed _ _ => true
  | _ => false
  end.

Definition closed_ok (c : Connection) : event := EvClosed c true.

Definition is_closed_event (e : event) : bool :=
  match e with
  | EvClosed _ _ => true
  | _ => false
  end.

(** The registry names each Server by its key, as lines 55-56 build it. *)
Definition registry_ok (srvs : gmap string Server) : Prop :=
  forall k srv, srvs !! k = Some srv -> srv_name srv = k.

(** The pooled connections are distinct objects, all made before now. *)
Definition pool_ok (self : Router) (sys : Sys) : Prop :=
  NoDup (map conn_id (dict_values (connections self))) /\
  Forall (fun c => conn_id c < next_conn sys) (dict_values (connections self)).

(** A computation is uniform when it reads of the outside state only
    [os.environ]: from two states with the same environment it gives the same
    result, the same environment and adds the same events. *)
Definition uniform {A} (m : M A) : Prop :=
  forall s1 s2,
    environ s1 = environ s2 ->
    fst (m s1) = fst (m s2) /\
    environ (snd (m s1)) = environ (snd (m s2)) /\
    exists es,
      trace (snd (m s1)) = trace s1 ++ es /\ trace (snd (m s2)) = trace s2 ++ es.

(** An entry of ["mcpServers"] that validates. *)
Definition entry_valid (w : World) (entry : string * ConfigData) : Prop :=
  is_Some (server_config_new w (fst entry) (snd entry)).

(** Every pool entry holds a Connection made for the Server registered under
    the entry's name. *)
Definition pool_registered (self : Router) : Prop :=
  forall s c, In (s, c) (connections self) -> servers self !! s = Some (conn_server c).



(** A call for server [s], wherever it is suspended, agrees with the pool:
    before its handshake is over it is still a call for [s]; once it is over,
    the Connection it goes on with is the one pooled for [s]; when it has
    returned, [s] is pooled. *)
Definition call_agrees (s : string) (k : Coro) (self : Router) : Prop :=
  match k with
  | CallStart s' _ _ => s' = s
  | AwaitConnect s' _ _ _ => s' = s
  | AwaitCall c _ _ => dict_get s (connections self) = Some c
  | Returned _ => is_Some (dict_get s (connections self))
  | Raised _ => True
  end.

(** ** Worlds used by the examples *)

Module Sample.

Definition data_a : ConfigData := [("command", "run-a")].
Definition data_b : ConfigData := [("url", "http://b")].

Definition srv_a : Server :=
  {| srv_name := "a"; srv_config := {| sc_data := data_a |} |}.
Definition srv_b : Server :=
  {| srv_name := "b"; srv_config := {| sc_data := data_b |} |}.

Definition cfg : ConfigDict :=
  {| mcpServers := Some [("a", data_a); ("b", data_b)] |}.

Definition index_file : PathLike := PPath ["/"; "srv"; "config"; "mcp_arg.json"].

Definition is_index_file (p : PathLike) : bool :=
  match p with
  | PPath ["/"; "srv"; "config"; "mcp_arg.json"] => true
  | _ => false
  end.

(** Every collaborator answers well; the only file is the default index. *)
Definition world : World :=
  {| project_root := ["/"; "srv"];
     path_exists := is_index_file;
     json_load := fun _ => None;
     dotenv := ∅;
     server_config_new := fun _ d => Some {| sc_data := d |};
     load_data_ok := fun _ => true;
     match_result := fun _ _ => [];
     connect_ok := fun _ _ => true;
     call_result := fun _ _ tool _ => Some tool;
     close_ok := fun _ _ => true;
     close_time := fun _ c => conn_id c |}.

(** As [world], but the first Connection object ever made fails to connect. *)
Definition world_connect_fails_once : World :=
  {| project_root := ["/"; "srv"];
     path_exists := is_index_file;
     json_load := fun _ => None;
     dotenv := ∅;
     server_config_new := fun _ d => Some {| sc_data := d |};
     load_data_ok := fun _ => true;
     match_result := fun _ _ => [];
     connect_ok := fun _ c => negb (Nat.eqb (conn_id c) 0);
     call_result := fun _ _ tool _ => Some tool;
     close_ok := fun _ _ => true;
     close_time := fun _ c => conn_id c |}.

(** As [world], but the close of the first Connection fails, and does so
    before the close of any other has finished. *)
Definition world_close_fails : World :=
  {| project_root := ["/"; "srv"];
     path_exists := is_index_file;
     json_load := fun _ => None;
     dotenv := ∅;
     server_config_new := fun _ d => Some {| sc_data := d |};
     load_data_ok := fun _ => true;
     match_result := fun _ _ => [];
     connect_ok := fun _ _ => true;
     call_result := fun _ _ tool _ => Some tool;
     close_ok := fun _ c => negb (Nat.eqb (conn_id c) 0);
     close_time := fun _ c => conn_id c |}.

(** As [world], but an entry without any argument does not validate. *)
Definition world_strict : World :=
  {| project_root := ["/"; "srv"];
     path_exists := is_index_file;
     json_load := fun _ => None;
     dotenv := ∅;
     server_config_new :=
       fun _ d => match d with [] => None | _ => Some {| sc_data := d |} end;
     load_data_ok := fun _ => true;
     match_result := fun _ _ => [];
     connect_ok := fun _ _ => true;
     call_result := fun _ _ tool _ => Some tool;
     close_ok := fun _ _ => true;
     close_time := fun _ c => conn_id c |}.

(** As [world], with a configuration file that holds [cfg]. *)
Definition world_with_config : World :=
  {| project_root := ["/"; "srv"];
     path_exists :=
       fun p => match p with
                | PPath ["etc"; "mcp.json"] => true
                | _ => is_index_file p
                end;
     json_load :=
       fun p => match p with
                | ["etc"; "mcp.json"] => Some cfg
                | _ => None
                end;
     dotenv := ∅;
     server_config_new := fun _ d => Some {| sc_data := d |};
     load_data_ok := fun _ => true;
     match_result := fun _ _ => [];
     connect_ok := fun _ _ => true;
     call_result := fun _ _ tool _ => Some tool;
     close_ok := fun _ _ => true;
     close_time := fun _ c => conn_id c |}.

(** The credential is set; [MCP_DATA_PATH] is not. *)
Definition sys : Sys :=
  {| trace := []; next_conn := 0; environ := {[ "DASHSCOPE_API_KEY" := "k" ]} |}.

(** Nothing is set. *)
Definition sys_bare : Sys :=
  {| trace := []; next_conn := 0; environ := ∅ |}.

(** The credential is set; [MCP_DATA_PATH] names a file that is not there. *)
Definition sys_no_index : Sys :=
  {| trace := []; next_conn := 0;
     environ := <["MCP_DATA_PATH" := "/nowhere.json"]> {[ "DASHSCOPE_API_KEY" := "k" ]} |}.

Definition the_matcher : ToolMatcher :=
  {| embedding_model := "text-embedding-v4"; dimensions := 1024;
     top_servers := 5; top_tools := 3;
     client := Some (default_base_url, "k"); data := Some index_file |}.

(** The Router that [Router_init world (ArgDict cfg) sys] returns. *)
Definition router : Router :=
  {| connections := [];
     servers := <["b" := srv_b]> (<["a" := srv_a]> ∅);
     config := cfg;
     matcher := the_matcher |}.

Definition conn_a (n : nat) : Connection := {| conn_id := n; conn_server := srv_a |}.
Definition conn_b (n : nat) : Connection := {| conn_id := n; conn_server := srv_b |}.

End Sample.

(** ** Traces only grow *)

Lemma events_since_app (before after : Sys) (es : list event) :
  trace after = trace before ++ es -> events_since before after = es.
Proof.
  intros H. unfold events_since. rewrite H. apply drop_app_length.
Qed.

Lemma count_app (p : event -> bool) (l k : list event) :
  count p (l ++ k) = count p l + count p k.
Proof.
  unfold count. rewrite List.filter_app. apply length_app.
Qed.

Lemma count_none (p : event -> bool) (l : list event) :
  Forall (fun e => p e = false) l -> count p l = 0.
Proof.
  unfold count. induction 1 as [|e l He _ IH]; simpl; [reflexivity|].
  rewrite He. exact IH.
Qed.

(** ** The constructor touches no connection *)

Lemma quiet_ret {A} (a : A) : quiet (ret a).
Proof.
  intros sys. exists []. simpl. rewrite app_nil_r. auto.
Qed.

Lemma quiet_raise {A} (e : exn) : quiet (@raise A e).
Proof.
  intros sys. exists []. simpl. rewrite app_nil_r. auto.
Qed.

Lemma quiet_tell (e : event) : is_conn_event e = false -> quiet (tell e).
Proof.
  intros He sys. exists [e]. simpl. auto.
Qed.

Lemma quiet_bind {A B} (m : M A) (k : A -> M B) :
  quiet m -> (forall a, quiet (k a)) -> quiet (bind m k).
Proof.
  intros Hm Hk sys. unfold bind.
  destruct (Hm sys) as (es1 & Ht1 & Hf1 & Hn1).
  destruct (m sys) as [[e|a] sys1]; simpl in *.
  - exists es1. auto.
  - destruct (Hk a sys1) as (es2 & Ht2 & Hf2 & Hn2).
    exists (es1 ++ es2). rewrite Ht2, Ht1, Hn2, Hn1, <- app_assoc.
    split; [reflexivity|]. split; [|reflexivity].
    apply Forall_app; auto.
Qed.

Lemma quiet_getenv (var : string) : quiet (getenv var).
Proof.
  intros sys. exists [EvGetenv var]. simpl. auto.
Qed.

Lemma quiet_load_dotenv (w : World) : quiet (load_dotenv w).
Proof.
  intros sys. exists [EvLoadDotenv]. simpl. auto.
Qed.

Lemma quiet_exists (w : World) (p : PathLike) : quiet (exists_ w p).
Proof.
  apply quiet_bind; [apply quiet_tell; reflexivity|]. intros _. apply quiet_ret.
Qed.

Create HintDb quiet.

#[local] Hint Resolve quiet_ret quiet_raise quiet_getenv quiet_load_dotenv
  quiet_exists : quiet.

Lemma quiet_load_config (w : World) (arg : ConfigArg) : quiet (load_config w arg).
Proof.
  destruct arg as [d|p|v]; simpl; auto with quiet.
  apply quiet_bind; [auto with quiet|]. intros [|]; [|auto with quiet].
  apply quiet_bind; [apply quiet_tell; reflexivity|]. intros _.
  destruct (json_load w p); auto with quiet.
Qed.

Lemma quiet_build_servers (w : World) (items : list (string * ConfigData)) :
  forall acc, quiet (build_servers w items acc).
Proof.
  induction items as [|[name config_data] rest IH]; intros acc; simpl.
  - apply quiet_ret.
  - apply quiet_bind; [apply quiet_tell; reflexivity|]. intros _.
    destruct (server_config_new w name config_data); [apply IH|apply quiet_raise].
Qed.

Lemma quiet_init_config (w : World) (arg : ConfigArg) : quiet (init_config w arg).
Proof.
  unfold init_config.
  apply quiet_bind; [apply quiet_load_config|]. intros cfg.
  apply quiet_bind; [apply quiet_build_servers|]. intros srvs.
  apply quiet_ret.
Qed.

Lemma quiet_init_runtime (w : World) (cfg : ConfigDict) (srvs : gmap string Server) :
  quiet (init_runtime w cfg srvs).
Proof.
  unfold init_runtime, ToolMatcher_new, setup_openai_client, load_data, api_key_error.
  apply quiet_bind; [auto with quiet|]. intros _.
  apply quiet_bind.
  { apply quiet_bind; [apply quiet_tell; reflexivity|]. intros _. apply quiet_ret. }
  intros m.
  apply quiet_bind; [auto with quiet|]. intros base_url_env.
  apply quiet_bind; [auto with quiet|]. intros api_key.
  apply quiet_bind; [auto with quiet|]. intros data_path_env.
  destruct api_key as [key|]; [|apply quiet_raise].
  destruct (str_truthy key); [|apply quiet_raise].
  destruct (pathlike_truthy _); [|apply quiet_raise].
  apply quiet_bind; [auto with quiet|]. intros [|]; [|apply quiet_raise].
  apply quiet_bind.
  { apply quiet_bind; [apply quiet_tell; reflexivity|]. intros _. apply quiet_ret. }
  intros m1.
  apply quiet_bind; [|intros m2; apply quiet_ret].
  apply quiet_bind; [apply quiet_tell; reflexivity|]. intros _.
  destruct (load_data_ok w _); auto with quiet.
Qed.

Lemma quiet_Router_init (w : World) (arg : ConfigArg) : quiet (Router_init w arg).
Proof.
  unfold Router_init.
  apply quiet_bind; [apply quiet_init_config|]. intros cs. apply quiet_init_runtime.
Qed.

(** What a successful [init_runtime] returns. *)
Lemma init_runtime_inr (w : World) (cfg : ConfigDict) (srvs : gmap string Server)
    (sys sys' : Sys) (self : Router) :
  init_runtime w cfg srvs sys = (inr self, sys') ->
  connections self = [] /\ servers self = srvs /\ config self = cfg.
Proof.
  unfold init_runtime, bind, ToolMatcher_new, setup_openai_client, load_data,
    exists_, bind, tell, ret, raise, getenv, load_dotenv. simpl.
  intros H. repeat case_match; simplify_eq; auto.
Qed.

Lemma Router_init_inr (w : World) (arg : ConfigArg) (sys sys' : Sys) (self : Router) :
  Router_init w arg sys = (inr self, sys') -> connections self = [].
Proof.
  unfold Router_init, bind. intros H.
  destruct (init_config w arg sys) as [[e|cs] sys1]; [discriminate|].
  apply init_runtime_inr in H. tauto.
Qed.

(** ** The runtime parameters, as the constructor reads them *)

Lemma init_runtime_no_credential (w : World) (cfg : ConfigDict)
    (srvs : gmap string Server) (sys : Sys) :
  opt_str_truthy (credential w sys) = false ->
  exists sys', init_runtime w cfg srvs sys = (inl api_key_error, sys').
Proof.
  unfold credential, effective_env, init_runtime, bind, ToolMatcher_new, getenv,
    load_dotenv, tell, ret, raise, bind. simpl. intros H.
  destruct ((environ sys ∪ dotenv w) !! "DASHSCOPE_API_KEY") as [key|]; simpl in *.
  - rewrite H. eauto.
  - eauto.
Qed.

Lemma init_runtime_no_data_path (w : World) (cfg : ConfigDict)
    (srvs : gmap string Server) (sys : Sys) :
  opt_str_truthy (credential w sys) = true ->
  data_path_ok w sys = false ->
  exists sys', init_runtime w cfg srvs sys = (inl (data_path_error (data_path w sys)), sys').
Proof.
  unfold data_path_ok, data_path, credential, effective_env, init_runtime, bind,
    ToolMatcher_new, getenv, load_dotenv, exists_, tell, ret, raise, bind. simpl.
  intros Hk Hd.
  destruct ((environ sys ∪ dotenv w) !! "DASHSCOPE_API_KEY") as [key|]; simpl in *;
    [|discriminate].
  rewrite Hk.
  destruct (pathlike_truthy _); simpl in *; [|eauto].
  rewrite Hd. eauto.
Qed.

Lemma init_runtime_ok (w : World) (cfg : ConfigDict) (srvs : gmap string Server)
    (sys : Sys) :
  opt_str_truthy (credential w sys) = true ->
  data_path_ok w sys = true ->
  load_data_ok w (data_path w sys) = true ->
  exists self sys',
    init_runtime w cfg srvs sys = (inr self, sys') /\
    connections self = [] /\ servers self = srvs.
Proof.
  unfold data_path_ok, data_path, credential, effective_env, init_runtime, bind,
    ToolMatcher_new, setup_openai_client, load_data, getenv, load_dotenv, exists_,
    tell, ret, raise, bind. simpl.
  intros Hk Hd Hl. apply andb_true_iff in Hd as [Hd1 Hd2].
  destruct ((environ sys ∪ dotenv w) !! "DASHSCOPE_API_KEY") as [key|]; simpl in *;
    [|discriminate].
  rewrite Hk, Hd1, Hd2, Hl. eauto.
Qed.

Lemma build_servers_environ (w : World) (items : list (string * ConfigData)) :
  forall acc sys, environ (snd (build_servers w items acc sys)) = environ sys.
Proof.
  induction items as [|[name config_data] rest IH]; intros acc sys; simpl.
  - reflexivity.
  - unfold bind, tell, raise. simpl.
    destruct (server_config_new w name config_data); [|reflexivity].
    rewrite IH. reflexivity.
Qed.

Lemma init_config_environ (w : World) (arg : ConfigArg) (sys : Sys) :
  environ (snd (init_config w arg sys)) = environ sys.
Proof.
  unfold init_config, bind at 1.
  assert (Hl : environ (snd (load_config w arg sys)) = environ sys).
  { destruct arg as [d|p|v]; simpl; try reflexivity.
    unfold bind, exists_, bind, tell, ret, raise. simpl.
    destruct (path_exists w (PPath p)); [|reflexivity]. simpl.
    destruct (json_load w p); reflexivity. }
  destruct (load_config w arg sys) as [[e|cfg] sys1]; simpl in *; [exact Hl|].
  unfold bind.
  pose proof (build_servers_environ w (default [] (mcpServers cfg)) ∅ sys1) as Hb.
  destruct (build_servers w _ ∅ sys1) as [[e|srvs] sys2]; simpl in *; congruence.
Qed.

Lemma init_config_missing_file (w : World) (p : list string) (sys : Sys) :
  path_exists w (PPath p) = false ->
  init_config w (ArgPath p) sys
  = (inr ({| mcpServers := Some [] |}, ∅), emit (EvPathExists (PPath p)) sys).
Proof.
  intros H. unfold init_config, bind, load_config, exists_, bind, tell, ret. simpl.
  rewrite H. reflexivity.
Qed.

(** The runtime parameters do not depend on what the configuration phase did. *)
Lemma credential_after_config (w : World) (arg : ConfigArg) (sys : Sys) :
  credential w (snd (init_config w arg sys)) = credential w sys.
Proof.
  unfold credential, effective_env. rewrite init_config_environ. reflexivity.
Qed.

Lemma data_path_after_config (w : World) (arg : ConfigArg) (sys : Sys) :
  data_path w (snd (init_config w arg sys)) = data_path w sys.
Proof.
  unfold data_path, effective_env. rewrite init_config_environ. reflexivity.
Qed.

(** ** Claims about construction *)

(** C10.  A [config] argument that is neither a dict nor a Path makes the
    constructor raise [ValueError] at once: the state of the outside is the
    one it started from, so no registry entry was built, no matcher made and
    no environment variable read. *)
Theorem Router_init_rejects_other_config (w : World) (v : PyOther) (sys : Sys) :
  Router_init w (ArgOther v) sys
  = (inl (ValueError "Config must be a dictionary or a Path to a JSON file."), sys).
Proof.
  reflexivity.
Qed.

(** C7.  Whatever the configuration, construction adds no connection event to
    the trace (no Connection is made, no [connect] is invoked), makes no
    Connection object, and the Router it returns has an empty pool. *)
Theorem Router_init_lazy (w : World) (arg : ConfigArg) (sys : Sys) :
  count is_conn_event (events_since sys (snd (Router_init w arg sys))) = 0 /\
  next_conn (snd (Router_init w arg sys)) = next_conn sys /\
  match fst (Router_init w arg sys) with
  | inr self => connections self = []
  | inl _ => True
  end.
Proof.
  destruct (quiet_Router_init w arg sys) as (es & Ht & Hf & Hn).
  split; [|split].
  - rewrite (events_since_app _ _ _ Ht). apply count_none. exact Hf.
  - exact Hn.
  - destruct (Router_init w arg sys) as [[e|self] sys'] eqn:E; simpl; [exact I|].
    eapply Router_init_inr. exact E.
Qed.

(** The constructor does succeed on a configuration with two servers, and
    leaves the pool empty. *)
Example Router_init_two_servers :
  fst (Router_init Sample.world (ArgDict Sample.cfg) Sample.sys) = inr Sample.router.
Proof.
  vm_compute. reflexivity.
Qed.

(** C6, as stated, fails: with the credential set and [MCP_DATA_PATH] absent
    from the environment, the constructor falls back to the default index path
    and succeeds. *)
Lemma Router_init_data_path_absent_succeeds :
  effective_env Sample.world Sample.sys !! "MCP_DATA_PATH" = None /\
  fst (Router_init Sample.world (ArgDict Sample.cfg) Sample.sys) = inr Sample.router.
Proof.
  split; vm_compute; reflexivity.
Qed.

(** C6, amended.  (1) A configuration path that does not exist is not an
    error: with the runtime parameters in order the constructor returns a
    Router with an empty registry.  (2) With the credential absent or empty
    the constructor fails, whatever the configuration, and the error is the
    credential's [ValueError] as soon as the configuration itself loads.
    (3) With the credential set and the index path empty or naming no file
    (the path being [MCP_DATA_PATH], or the default path when the variable is
    absent), the constructor fails likewise with the path's [ValueError]. *)
Theorem Router_init_missing_config_vs_parameters (w : World) (sys : Sys) :
  (forall p,
     path_exists w (PPath p) = false ->
     opt_str_truthy (credential w sys) = true ->
     data_path_ok w sys = true ->
     load_data_ok w (data_path w sys) = true ->
     exists self sys',
       Router_init w (ArgPath p) sys = (inr self, sys') /\
       servers self = ∅ /\ connections self = []) /\
  (opt_str_truthy (credential w sys) = false ->
   forall arg, exists e sys',
     Router_init w arg sys = (inl e, sys') /\
     (forall cs sys1, init_config w arg sys = (inr cs, sys1) -> e = api_key_error)) /\
  (opt_str_truthy (credential w sys) = true ->
   data_path_ok w sys = false ->
   forall arg, exists e sys',
     Router_init w arg sys = (inl e, sys') /\
     (forall cs sys1, init_config w arg sys = (inr cs, sys1) ->
        e = data_path_error (data_path w sys))).
Proof.
  split; [|split].
  - intros p Hp Hk Hd Hl. unfold Router_init, bind.
    pose proof (credential_after_config w (ArgPath p) sys) as Ek.
    pose proof (data_path_after_config w (ArgPath p) sys) as Ed.
    assert (Eo : data_path_ok w (snd (init_config w (ArgPath p) sys)) = data_path_ok w sys).
    { unfold data_path_ok. rewrite Ed. reflexivity. }
    rewrite (init_config_missing_file w p sys Hp) in *. simpl in *.
    destruct (init_runtime_ok w {| mcpServers := Some [] |} ∅
                (emit (EvPathExists (PPath p)) sys)) as (self & sys' & E & Hc & Hs).
    + rewrite Ek. exact Hk.
    + rewrite Eo. exact Hd.
    + rewrite Ed. exact Hl.
    + exists self, sys'. auto.
  - intros Hk arg. unfold Router_init, bind.
    pose proof (credential_after_config w arg sys) as Ek.
    destruct (init_config w arg sys) as [[e|cs] sys1]; simpl in *.
    + exists e, sys1. split; [reflexivity|]. intros cs sys2 H. discriminate.
    + destruct (init_runtime_no_credential w (fst cs) (snd cs) sys1) as [sys' E].
      { rewrite Ek. exact Hk. }
      exists api_key_error, sys'. auto.
  - intros Hk Hd arg. unfold Router_init, bind.
    pose proof (credential_after_config w arg sys) as Ek.
    pose proof (data_path_after_config w arg sys) as Ed.
    assert (Eo : data_path_ok w (snd (init_config w arg sys)) = data_path_ok w sys).
    { unfold data_path_ok. rewrite Ed. reflexivity. }
    destruct (init_config w arg sys) as [[e|cs] sys1]; simpl in *.
    + exists e, sys1. split; [reflexivity|]. intros cs sys2 H. discriminate.
    + destruct (init_runtime_no_data_path w (fst cs) (snd cs) sys1) as [sys' E].
      { rewrite Ek. exact Hk. }
      { rewrite Eo. exact Hd. }
      rewrite Ed in E. eauto.
Qed.

Lemma Router_init_missing_config_vs_parameters_witness :
  (exists self sys',
     Router_init Sample.world (ArgPath ["missing.json"]) Sample.sys = (inr self, sys') /\
     servers self = ∅ /\ connections self = []) /\
  (exists e sys',
     Router_init Sample.world (ArgPath ["missing.json"]) Sample.sys_bare = (inl e, sys') /\
     (forall cs sys1,
        init_config Sample.world (ArgPath ["missing.json"]) Sample.sys_bare = (inr cs, sys1) ->
        e = api_key_error)) /\
  (exists e sys',
     Router_init Sample.world (ArgDict Sample.cfg) Sample.sys_no_index = (inl e, sys') /\
     (forall cs sys1,
        init_config Sample.world (ArgDict Sample.cfg) Sample.sys_no_index = (inr cs, sys1) ->
        e = data_path_error (data_path Sample.world Sample.sys_no_index))).
Proof.
  split; [|split].
  - apply (proj1 (Router_init_missing_config_vs_parameters Sample.world Sample.sys));
      vm_compute; reflexivity.
  - apply (proj1 (proj2 (Router_init_missing_config_vs_parameters
                           Sample.world Sample.sys_bare))).
    vm_compute. reflexivity.
  - apply (proj2 (proj2 (Router_init_missing_config_vs_parameters
                           Sample.world Sample.sys_no_index)));
      vm_compute; reflexivity.
Defined.

(** ** The pool as a dict *)

Lemma dict_get_set_eq (k : string) (v : Connection) (d : Pool) :
  dict_get k (dict_set k v d) = Some v.
Proof.
  induction d as [|[k' v'] rest IH]; simpl.
  - rewrite String.eqb_refl. reflexivity.
  - destruct (String.eqb k k') eqn:E; simpl; rewrite E; [reflexivity|exact IH].
Qed.

Lemma dict_get_set_ne (k k' : string) (v : Connection) (d : Pool) :
  k <> k' -> dict_get k' (dict_set k v d) = dict_get k' d.
Proof.
  intros Hne. induction d as [|[k0 v0] rest IH]; simpl.
  - destruct (String.eqb_spec k' k); [congruence|reflexivity].
  - destruct (String.eqb_spec k k0) as [->|Hk0]; simpl.
    + destruct (String.eqb_spec k' k0); [congruence|reflexivity].
    + destruct (String.eqb_spec k' k0); [reflexivity|exact IH].
Qed.

(** Setting a key that is not there appends it: the new entry is the last one
    that [.values()] yields. *)
Lemma dict_set_fresh (k : string) (v : Connection) (d : Pool) :
  dict_get k d = None -> dict_set k v d = d ++ [(k, v)].
Proof.
  induction d as [|[k' v'] rest IH]; simpl; [reflexivity|].
  destruct (String.eqb k k'); [discriminate|].
  intros H. rewrite IH by exact H. reflexivity.
Qed.

(** Setting a key that is there replaces its value in place. *)
Lemma dict_set_length_present (k : string) (v v0 : Connection) (d : Pool) :
  dict_get k d = Some v0 -> length (dict_set k v d) = length d.
Proof.
  induction d as [|[k' v'] rest IH]; simpl; [discriminate|].
  destruct (String.eqb k k'); simpl; [reflexivity|].
  intros H. rewrite IH by exact H. reflexivity.
Qed.


(** ** call_tool, one call at a time *)

(** The call on a pooled connection: no object is made, [connect] is not
    invoked, the Router is as before. *)
Lemma call_tool_pooled (w : World) (self : Router) (s t : string)
    (p : option Params) (sys : Sys) (c : Connection) :
  dict_get s (connections self) = Some c ->
  exists res,
    call_tool w self s t p sys
    = (match res with Some r => inr r | None => inl (CallError c) end,
       self,
       emit_all [EvCall c t (default [] p); EvCalled c res] sys).
Proof.
  intros H. unfold call_tool, conn_call_tool. rewrite H.
  eexists. unfold emit_all, emit. simpl. rewrite <- app_assoc. reflexivity.
Qed.

(** The three runs of the coroutine, with nothing in between, are the call. *)
Lemma call_tool_as_coroutine (w : World) (self : Router) (s t : string)
    (p : option Params) (sys : Sys) :
  let '(k1, self1, sys1) := resume w (CallStart s t p) self sys in
  let '(k2, self2, sys2) := resume w k1 self1 sys1 in
  let '(k3, self3, sys3) := resume w k2 self2 sys2 in
  exists res,
    finished k3 = Some res /\ call_tool w self s t p sys = (res, self3, sys3).
Proof.
  unfold call_tool, conn_call_tool, MCPConnection_new. simpl.
  destruct (dict_get s (connections self)) as [c|]; simpl.
  - destruct (call_result w _ c t (default [] p)); simpl; eauto.
  - destruct (servers self !! s) as [srv|]; simpl; [|eauto].
    destruct (connect_ok w _ _); simpl.
    + destruct (call_result w _ _ t (default [] p)); simpl; eauto.
    + eauto.
Qed.

(** C5.  A server name that is neither in the pool nor in the registry makes
    [call_tool] raise the unknown-server [ValueError]; the Router and the
    outside are exactly as before, so nothing was connected and the pool has
    no new entry. *)
Theorem call_tool_unknown_server (w : World) (self : Router) (s t : string)
    (p : option Params) (sys : Sys) :
  dict_get s (connections self) = None ->
  servers self !! s = None ->
  call_tool w self s t p sys = (inl (unknown_server s), self, sys).
Proof.
  intros Hp Hr. unfold call_tool. rewrite Hp, Hr. reflexivity.
Qed.

Lemma call_tool_unknown_server_witness :
  call_tool Sample.world Sample.router "nope" "x" (Some []) Sample.sys
  = (inl (unknown_server "nope"), Sample.router, Sample.sys).
Proof.
  apply call_tool_unknown_server; vm_compute; reflexivity.
Defined.

Lemma trace_emit (e : event) (sys : Sys) : trace (emit e sys) = trace sys ++ [e].
Proof. reflexivity. Qed.

Lemma trace_emit_all (es : list event) (sys : Sys) :
  trace (emit_all es sys) = trace sys ++ es.
Proof. reflexivity. Qed.

Lemma trace_connecting (srv : Server) (sys : Sys) :
  trace (connecting srv sys)
  = trace sys ++ [EvConnNew (new_conn srv sys); EvConnect (new_conn srv sys)].
Proof.
  unfold connecting, new_conn, MCPConnection_new, emit. simpl.
  rewrite <- app_assoc. reflexivity.
Qed.

Lemma call_tool_connect_fails (w : World) (self : Router) (s t : string)
    (p : option Params) (sys : Sys) (srv : Server) :
  dict_get s (connections self) = None ->
  servers self !! s = Some srv ->
  connect_ok w (trace (connecting srv sys)) (new_conn srv sys) = false ->
  call_tool w self s t p sys
  = (inl (ConnectError (new_conn srv sys)), self,
     emit (EvConnected (new_conn srv sys) false) (connecting srv sys)).
Proof.
  intros Hp Hr Hc. unfold call_tool. rewrite Hp, Hr.
  unfold connecting, new_conn in *. destruct (MCPConnection_new srv sys) as [c sys1].
  simpl in *. rewrite Hc. reflexivity.
Qed.

Lemma call_tool_connect_succeeds (w : World) (self : Router) (s t : string)
    (p : option Params) (sys : Sys) (srv : Server) :
  dict_get s (connections self) = None ->
  servers self !! s = Some srv ->
  connect_ok w (trace (connecting srv sys)) (new_conn srv sys) = true ->
  exists res,
    call_tool w self s t p sys
    = (match res with Some r => inr r | None => inl (CallError (new_conn srv sys)) end,
       set_connections self (dict_set s (new_conn srv sys) (connections self)),
       emit_all [EvConnected (new_conn srv sys) true;
                 EvCall (new_conn srv sys) t (default [] p);
                 EvCalled (new_conn srv sys) res] (connecting srv sys)).
Proof.
  intros Hp Hr Hc. unfold call_tool, conn_call_tool. rewrite Hp, Hr.
  unfold connecting, new_conn in *. destruct (MCPConnection_new srv sys) as [c sys1].
  simpl in *. rewrite Hc. eexists. unfold emit_all, emit. simpl.
  repeat rewrite <- app_assoc. reflexivity.
Qed.

(** C2.  When the handshake of the new Connection fails, [call_tool] raises,
    the Router (its pool included) is as before, and the next call for the
    same server makes another Connection object and invokes [connect] on it;
    when that handshake succeeds, this second Connection is the one pooled. *)
Theorem call_tool_connect_failure (w : World) (self : Router) (s t : string)
    (p : option Params) (sys : Sys) (srv : Server) :
  let c := new_conn srv sys in
  let sys' := emit (EvConnected c false) (connecting srv sys) in
  dict_get s (connections self) = None ->
  servers self !! s = Some srv ->
  connect_ok w (trace (connecting srv sys)) c = false ->
  call_tool w self s t p sys = (inl (ConnectError c), self, sys') /\
  forall t' p',
    let c' := new_conn srv sys' in
    conn_id c' <> conn_id c /\
    exists res self'' sys'' rest,
      call_tool w self s t' p' sys' = (res, self'', sys'') /\
      trace sys'' = trace sys' ++ EvConnNew c' :: EvConnect c' :: rest /\
      (connect_ok w (trace (connecting srv sys')) c' = true ->
       dict_get s (connections self'') = Some c').
Proof.
  intros c sys' Hp Hr Hc. split.
  { apply call_tool_connect_fails; assumption. }
  intros t' p' c'. split.
  { unfold c', c, sys', new_conn, connecting. simpl. lia. }
  destruct (connect_ok w (trace (connecting srv sys')) c') eqn:E.
  - destruct (call_tool_connect_succeeds w self s t' p' sys' srv Hp Hr E) as [res H].
    do 3 eexists. exists [EvConnected c' true; EvCall c' t' (default [] p'); EvCalled c' res].
    split; [exact H|]. split.
    + rewrite trace_emit_all, trace_connecting, <- app_assoc. reflexivity.
    + intros _. simpl. apply dict_get_set_eq.
  - do 3 eexists. exists [EvConnected c' false].
    split; [apply call_tool_connect_fails; [exact Hp|exact Hr|exact E]|]. split.
    + rewrite trace_emit, trace_connecting, <- app_assoc. reflexivity.
    + discriminate.
Qed.

Lemma call_tool_connect_failure_witness :
  call_tool Sample.world_connect_fails_once Sample.router "a" "t1" None Sample.sys
  = (inl (ConnectError (Sample.conn_a 0)), Sample.router,
     emit (EvConnected (Sample.conn_a 0) false) (connecting Sample.srv_a Sample.sys)).
Proof.
  apply (call_tool_connect_failure Sample.world_connect_fails_once Sample.router
           "a" "t1" None Sample.sys Sample.srv_a); vm_compute; reflexivity.
Defined.

(** ** What one aclose does *)

Lemma insert_by_time_perm (t : Connection -> nat) (c : Connection) (l : list Connection) :
  Permutation (insert_by_time t c l) (c :: l).
Proof.
  induction l as [|c' rest IH]; simpl; [reflexivity|].
  destruct (Nat.leb (t c) (t c')); [reflexivity|].
  rewrite IH. apply perm_swap.
Qed.

(** Every started close task finishes at some point of the order, once. *)
Lemma completion_order_perm (t : Connection -> nat) (l : list Connection) :
  Permutation (completion_order t l) l.
Proof.
  induction l as [|c rest IH]; simpl; [reflexivity|].
  rewrite insert_by_time_perm, IH. reflexivity.
Qed.

Lemma gather_wait_spec (w : World) (pending : list Connection) :
  forall sys, exists done,
    trace (snd (gather_wait w pending sys)) = trace sys ++ done /\
    next_conn (snd (gather_wait w pending sys)) = next_conn sys /\
    match fst (gather_wait w pending sys) with
    | inr _ => done = map closed_ok pending
    | inl e =>
        exists before c after,
          pending = before ++ c :: after /\
          e = CloseError c /\
          done = map closed_ok before ++ [EvClosed c false]
    end.
Proof.
  induction pending as [|c rest IH]; intros sys; simpl.
  - exists []. rewrite app_nil_r. auto.
  - destruct (close_ok w (trace sys) c) eqn:E.
    + destruct (IH (emit (EvClosed c true) sys)) as (done & Ht & Hn & Hr).
      exists (EvClosed c true :: done). rewrite Ht, Hn. simpl.
      rewrite <- app_assoc. split; [reflexivity|]. split; [reflexivity|].
      destruct (fst (gather_wait w rest _)) as [e|[]].
      * destruct Hr as (before & c' & after & -> & -> & ->).
        exists (c :: before), c', after. auto.
      * rewrite Hr. reflexivity.
    + exists [EvClosed c false]. simpl. split; [reflexivity|]. split; [reflexivity|].
      exists [], c, rest. auto.
Qed.

Lemma aclose_self (w : World) (self : Router) (sys : Sys) :
  snd (fst (aclose w self sys)) = self.
Proof.
  unfold aclose. destruct (gather_wait w _ _). reflexivity.
Qed.

(** What one [aclose] adds to the trace: first one [EvClose] per pooled
    connection, in the order of the pool, then what the gather saw finish. *)
Lemma aclose_spec (w : World) (self : Router) (sys : Sys) :
  let conns := dict_values (connections self) in
  exists done,
    trace (snd (aclose w self sys)) = trace sys ++ map EvClose conns ++ done /\
    next_conn (snd (aclose w self sys)) = next_conn sys /\
    match fst (fst (aclose w self sys)) with
    | inr _ => Permutation done (map closed_ok conns)
    | inl e =>
        exists c finished_before,
          e = CloseError c /\ In c conns /\
          (forall c', In c' finished_before -> In c' conns) /\
          done = map closed_ok finished_before ++ [EvClosed c false]
    end.
Proof.
  intros conns. unfold aclose. fold conns.
  set (sys1 := emit_all (map EvClose conns) sys).
  set (order := completion_order (close_time w (trace sys1)) conns).
  assert (Hperm : Permutation order conns) by apply completion_order_perm.
  destruct (gather_wait_spec w order sys1) as (done & Ht & Hn & Hr).
  destruct (gather_wait w order sys1) as [res sys2]. simpl in *.
  exists done. rewrite Ht, Hn. unfold sys1, emit_all. simpl. rewrite <- app_assoc.
  split; [reflexivity|]. split; [reflexivity|].
  destruct res as [e|[]].
  - destruct Hr as (before & c & after & Ho & -> & ->).
    exists c, before. split; [reflexivity|].
    assert (Hin : forall c', In c' order -> In c' conns).
    { intros c' H. eapply Permutation_in; [exact Hperm|exact H]. }
    rewrite Ho in Hin. split; [|split; [|reflexivity]].
    + apply Hin. apply in_or_app. right. left. reflexivity.
    + intros c' H. apply Hin. apply in_or_app. left. exact H.
  - rewrite Hr. apply Permutation_map. exact Hperm.
Qed.

Lemma aclose_events_close (w : World) (self : Router) (sys : Sys) :
  exists es,
    trace (snd (aclose w self sys)) = trace sys ++ es /\
    Forall (fun e => is_close_event e = true) es.
Proof.
  destruct (aclose_spec w self sys) as (done & Ht & _ & Hr).
  eexists. split; [exact Ht|].
  apply Forall_app. split.
  - apply List.Forall_forall. intros e He. apply in_map_iff in He as (c & <- & _). reflexivity.
  - destruct (fst (fst (aclose w self sys))) as [e|u].
    + destruct Hr as (c & fin & _ & _ & _ & ->).
      apply Forall_app. split; [|repeat constructor].
      apply List.Forall_forall. intros e' He. apply in_map_iff in He as (c' & <- & _). reflexivity.
    + apply List.Forall_forall. intros e He.
      eapply Permutation_in in He; [|exact Hr].
      apply in_map_iff in He as (c' & <- & _). reflexivity.
Qed.

(** ** Claims about shutdown *)

(** The pool in which servers "a" and "b" are connected, as two calls build it. *)
Example pool_after_two_calls :
  connections
    (fst (run_ops Sample.world_close_fails
            [OpCallTool "a" "t" None; OpCallTool "b" "t" None]
            (Sample.router, Sample.sys)))
  = [("a", Sample.conn_a 0); ("b", Sample.conn_b 1)].
Proof.
  vm_compute. reflexivity.
Qed.

(** C3, as stated, fails: with A's close failing before B's close has
    finished, [aclose] raises A's failure while B's close, which was invoked,
    has not been seen to finish. *)
Lemma aclose_reports_before_every_close_finished :
  let st := run_ops Sample.world_close_fails
              [OpCallTool "a" "t" None; OpCallTool "b" "t" None]
              (Sample.router, Sample.sys) in
  let out := aclose Sample.world_close_fails (fst st) (snd st) in
  fst (fst out) = inl (CloseError (Sample.conn_a 0)) /\
  count (is_close_of 1) (events_since (snd st) (snd out)) = 1 /\
  count (is_closed_of 1) (events_since (snd st) (snd out)) = 0.
Proof.
  vm_compute. auto.
Qed.

(** C3, amended.  [aclose] invokes close on every pooled connection before it
    looks at any outcome, so a failing close keeps no other close from being
    attempted.  When it returns normally, every close has finished well.
    When it raises, it raises the failure of the first close seen to fail,
    at that moment: the closes that finished before it finished well, and the
    others are not waited for. *)
Theorem aclose_partial_failure (w : World) (self : Router) (sys : Sys) :
  let conns := dict_values (connections self) in
  let out := aclose w self sys in
  exists done,
    events_since sys (snd out) = map EvClose conns ++ done /\
    match fst (fst out) with
    | inr _ => Permutation done (map closed_ok conns)
    | inl e =>
        exists c finished_before,
          e = CloseError c /\ In c conns /\
          (forall c', In c' finished_before -> In c' conns) /\
          done = map closed_ok finished_before ++ [EvClosed c false]
    end.
Proof.
  intros conns out.
  destruct (aclose_spec w self sys) as (done & Ht & _ & Hr).
  exists done. split; [|exact Hr].
  apply events_since_app. exact Ht.
Qed.

(** C8.  Whatever exception state the release step is given, it is the
    aggregate shutdown: [aexit] is [aclose], and a scope left in any way, by its
    result or by an exception of its body, has close invoked on every
    connection pooled at that moment. *)
Theorem aexit_always_closes {A} (w : World) (self : Router) (sys : Sys)
    (body : Router -> Router -> Sys -> (exn + A) * Router * Sys) :
  (forall exc, aexit w self exc sys = aclose w self sys) /\
  let at_exit := body self self sys in
  let out := async_with w self body sys in
  forall c,
    In c (dict_values (connections (snd (fst at_exit)))) ->
    In (EvClose c) (events_since (snd at_exit) (snd out)).
Proof.
  split; [reflexivity|].
  intros at_exit out c Hc. unfold out, async_with, aenter, aexit. fold at_exit.
  destruct at_exit as [[res self1] sys1]. simpl in *.
  destruct (aclose_spec w self1 sys1) as (done & Ht & _ & _).
  destruct (aclose w self1 sys1) as [[res2 self2] sys2]. simpl in *.
  rewrite (events_since_app _ _ _ Ht).
  apply in_or_app. left. apply in_map. exact Hc.
Qed.

(** ** The Router over a sequence of operations *)

Lemma build_servers_registry_ok (w : World) (items : list (string * ConfigData)) :
  forall acc sys srvs sys',
    registry_ok acc ->
    build_servers w items acc sys = (inr srvs, sys') ->
    registry_ok srvs.
Proof.
  induction items as [|[name config_data] rest IH]; intros acc sys srvs sys' Hacc; simpl.
  - intros [= <- _]. exact Hacc.
  - unfold bind, tell. simpl.
    destruct (server_config_new w name config_data) as [sc|]; [|discriminate].
    apply IH. intros k srv Hk.
    destruct (decide (name = k)) as [->|Hne].
    + rewrite lookup_insert_eq in Hk. injection Hk as <-. reflexivity.
    + rewrite lookup_insert_ne in Hk by exact Hne. apply Hacc. exact Hk.
Qed.

(** The constructor returns a Router whose registry is well named. *)
Lemma Router_init_registry_ok (w : World) (arg : ConfigArg) (sys sys' : Sys)
    (self : Router) :
  Router_init w arg sys = (inr self, sys') -> registry_ok (servers self).
Proof.
  unfold Router_init, init_config, bind at 1 2.
  destruct (load_config w arg sys) as [[e|cfg] sys1]; [discriminate|].
  unfold bind at 1.
  destruct (build_servers w _ ∅ sys1) as [[e|srvs] sys2] eqn:E; [discriminate|].
  simpl. intros H. apply init_runtime_inr in H as (_ & -> & _).
  eapply build_servers_registry_ok; [|exact E].
  intros k srv Hk. rewrite lookup_empty in Hk. discriminate.
Qed.

(** The four ways a call can go. *)
Lemma call_tool_cases (w : World) (self : Router) (s t : string)
    (p : option Params) (sys : Sys) :
  (exists c res,
     dict_get s (connections self) = Some c /\
     call_tool w self s t p sys
     = (match res with Some r => inr r | None => inl (CallError c) end, self,
        emit_all [EvCall c t (default [] p); EvCalled c res] sys)) \/
  (dict_get s (connections self) = None /\ servers self !! s = None /\
   call_tool w self s t p sys = (inl (unknown_server s), self, sys)) \/
  (exists srv,
     dict_get s (connections self) = None /\ servers self !! s = Some srv /\
     call_tool w self s t p sys
     = (inl (ConnectError (new_conn srv sys)), self,
        emit (EvConnected (new_conn srv sys) false) (connecting srv sys))) \/
  (exists srv res,
     dict_get s (connections self) = None /\ servers self !! s = Some srv /\
     call_tool w self s t p sys
     = (match res with Some r => inr r | None => inl (CallError (new_conn srv sys)) end,
        set_connections self (dict_set s (new_conn srv sys) (connections self)),
        emit_all [EvConnected (new_conn srv sys) true;
                  EvCall (new_conn srv sys) t (default [] p);
                  EvCalled (new_conn srv sys) res] (connecting srv sys))).
Proof.
  destruct (dict_get s (connections self)) as [c|] eqn:Hp.
  { left. destruct (call_tool_pooled w self s t p sys c Hp) as [res H]. eauto. }
  right. destruct (servers self !! s) as [srv|] eqn:Hr.
  2:{ left. unfold call_tool. rewrite Hp, Hr. auto. }
  right. destruct (connect_ok w (trace (connecting srv sys)) (new_conn srv sys)) eqn:Hc.
  - right. destruct (call_tool_connect_succeeds w self s t p sys srv Hp Hr Hc) as [res H].
    eauto.
  - left. exists srv. auto using call_tool_connect_fails.
Qed.

Lemma run_op_servers (w : World) (o : op) (self : Router) (sys : Sys) :
  servers (fst (run_op w o (self, sys))) = servers self.
Proof.
  destruct o as [q|s t p| |exc]; simpl.
  - reflexivity.
  - destruct (call_tool_cases w self s t p sys)
      as [(c & res & _ & ->)|[(_ & _ & ->)|[(srv & _ & _ & ->)|(srv & res & _ & _ & ->)]]];
      reflexivity.
  - pose proof (aclose_self w self sys) as H.
    destruct (aclose w self sys) as [[res self'] sys']. simpl in *. congruence.
  - unfold aexit. pose proof (aclose_self w self sys) as H.
    destruct (aclose w self sys) as [[res self'] sys']. simpl in *. congruence.
Qed.

Lemma pool_ok_later (self : Router) (sys sys' : Sys) :
  next_conn sys <= next_conn sys' -> pool_ok self sys -> pool_ok self sys'.
Proof.
  intros Hle [Hnd Hlt]. split; [exact Hnd|].
  eapply Forall_impl; [exact Hlt|]. simpl. intros c Hc. lia.
Qed.

Lemma pool_ok_store (self : Router) (sys : Sys) (s : string) (srv : Server) :
  dict_get s (connections self) = None ->
  pool_ok self sys ->
  forall sys',
    next_conn sys' = S (next_conn sys) ->
    pool_ok (set_connections self (dict_set s (new_conn srv sys) (connections self))) sys'.
Proof.
  intros Hp [Hnd Hlt] sys' Hn. unfold pool_ok. simpl.
  rewrite (dict_set_fresh _ _ _ Hp). unfold dict_values in *.
  rewrite !map_app. simpl. split.
  - apply NoDup_app. split; [exact Hnd|]. split; [|apply NoDup_singleton].
    intros n Hin Hn'. apply list_elem_of_singleton in Hn'. subst n.
    apply list_elem_of_In, in_map_iff in Hin as (c & Hc & Hin).
    rewrite List.Forall_forall in Hlt. apply Hlt in Hin. lia.
  - apply Forall_app. split.
    + eapply Forall_impl; [exact Hlt|]. simpl. intros c Hc. lia.
    + repeat constructor. simpl. lia.
Qed.

(** One operation keeps the pool well formed. *)
Lemma run_op_pool_ok (w : World) (o : op) (self : Router) (sys : Sys) :
  pool_ok self sys ->
  pool_ok (fst (run_op w o (self, sys))) (snd (run_op w o (self, sys))).
Proof.
  intros Hok. destruct o as [q|s t p| |exc]; simpl.
  - eapply pool_ok_later; [|exact Hok]. simpl. lia.
  - destruct (call_tool_cases w self s t p sys)
      as [(c & res & _ & ->)|[(_ & _ & ->)|[(srv & _ & _ & ->)|(srv & res & Hp & _ & ->)]]];
      simpl.
    + eapply pool_ok_later; [|exact Hok]. simpl. lia.
    + exact Hok.
    + eapply pool_ok_later; [|exact Hok]. simpl. lia.
    + apply pool_ok_store; [exact Hp|exact Hok|reflexivity].
  - pose proof (aclose_self w self sys) as Hs.
    destruct (aclose_spec w self sys) as (done & _ & Hn & _).
    destruct (aclose w self sys) as [[res self'] sys']. simpl in *. subst self'.
    eapply pool_ok_later; [|exact Hok]. lia.
  - unfold aexit. pose proof (aclose_self w self sys) as Hs.
    destruct (aclose_spec w self sys) as (done & _ & Hn & _).
    destruct (aclose w self sys) as [[res self'] sys']. simpl in *. subst self'.
    eapply pool_ok_later; [|exact Hok]. lia.
Qed.

Lemma run_ops_cons (w : World) (o : op) (rest : list op) (st : Router * Sys) :
  run_ops w (o :: rest) st = run_ops w rest (run_op w o st).
Proof. reflexivity. Qed.

Lemma run_ops_pool_ok (w : World) (ops : list op) :
  forall self sys,
    pool_ok self sys ->
    pool_ok (fst (run_ops w ops (self, sys))) (snd (run_ops w ops (self, sys))).
Proof.
  induction ops as [|o rest IH]; intros self sys Hok; [exact Hok|].
  rewrite run_ops_cons.
  pose proof (run_op_pool_ok w o self sys Hok) as H.
  destruct (run_op w o (self, sys)) as [self1 sys1]. apply IH. exact H.
Qed.

Lemma pool_ok_empty (self : Router) (sys : Sys) :
  connections self = [] -> pool_ok self sys.
Proof.
  intros H. unfold pool_ok. rewrite H. simpl. split; constructor.
Qed.

(** Once a server has its pooled connection, one more operation keeps that
    connection and neither makes a Connection for the server nor invokes
    [connect] on one. *)
Lemma run_op_keeps_connection (w : World) (o : op) (self : Router) (sys : Sys)
    (s : string) (c : Connection) :
  registry_ok (servers self) ->
  dict_get s (connections self) = Some c ->
  dict_get s (connections (fst (run_op w o (self, sys)))) = Some c /\
  exists es,
    trace (snd (run_op w o (self, sys))) = trace sys ++ es /\
    count (is_new_for s) es = 0 /\ count (is_connect_for s) es = 0.
Proof.
  intros Hreg Hc. destruct o as [q|s' t p| |exc]; simpl.
  - split; [exact Hc|]. exists [EvMatch q]. auto.
  - destruct (call_tool_cases w self s' t p sys)
      as [(c' & res & _ & ->)|[(_ & _ & ->)|[(srv & Hp & Hr & ->)|(srv & res & Hp & Hr & ->)]]];
      simpl.
    + split; [exact Hc|]. eexists. split; [reflexivity|]. auto.
    + split; [exact Hc|]. exists []. rewrite app_nil_r. auto.
    + assert (Hne : String.eqb s' s = false).
      { apply String.eqb_neq. intros ->. congruence. }
      split; [exact Hc|].
      unfold connecting, new_conn, MCPConnection_new. simpl.
      repeat rewrite <- app_assoc. simpl.
      eexists. split; [reflexivity|].
      unfold count. simpl. rewrite (Hreg _ _ Hr), Hne. auto.
    + assert (Hne : s' <> s) by (intros ->; congruence).
      split; [rewrite dict_get_set_ne by exact Hne; exact Hc|].
      unfold connecting, new_conn, MCPConnection_new. simpl.
      repeat rewrite <- app_assoc. simpl.
      eexists. split; [reflexivity|].
      apply String.eqb_neq in Hne.
      unfold count. simpl. rewrite (Hreg _ _ Hr), Hne. auto.
  - pose proof (aclose_self w self sys) as Hs.
    destruct (aclose_events_close w self sys) as (es & Ht & Hf).
    destruct (aclose w self sys) as [[res self'] sys']. simpl in *. subst self'.
    split; [exact Hc|]. exists es. split; [exact Ht|].
    split; apply count_none; (eapply Forall_impl; [exact Hf|]);
      intros [] He; simpl in *; congruence.
  - unfold aexit. pose proof (aclose_self w self sys) as Hs.
    destruct (aclose_events_close w self sys) as (es & Ht & Hf).
    destruct (aclose w self sys) as [[res self'] sys']. simpl in *. subst self'.
    split; [exact Hc|]. exists es. split; [exact Ht|].
    split; apply count_none; (eapply Forall_impl; [exact Hf|]);
      intros [] He; simpl in *; congruence.
Qed.

Lemma run_ops_keeps_connection (w : World) (ops : list op) (s : string)
    (c : Connection) :
  forall self sys,
    registry_ok (servers self) ->
    dict_get s (connections self) = Some c ->
    dict_get s (connections (fst (run_ops w ops (self, sys)))) = Some c /\
    exists es,
      trace (snd (run_ops w ops (self, sys))) = trace sys ++ es /\
      count (is_new_for s) es = 0 /\ count (is_connect_for s) es = 0.
Proof.
  induction ops as [|o rest IH]; intros self sys Hreg Hc.
  - split; [exact Hc|]. exists []. simpl. rewrite app_nil_r. auto.
  - rewrite run_ops_cons.
    destruct (run_op_keeps_connection w o self sys s c Hreg Hc) as (Hc1 & es1 & Ht1 & Hn1 & Hk1).
    pose proof (run_op_servers w o self sys) as Hs.
    destruct (run_op w o (self, sys)) as [self1 sys1]. simpl in *.
    destruct (IH self1 sys1) as (Hc2 & es2 & Ht2 & Hn2 & Hk2).
    { rewrite Hs. exact Hreg. }
    { exact Hc1. }
    split; [exact Hc2|]. exists (es1 ++ es2).
    rewrite Ht2, Ht1, <- app_assoc, !count_app, Hn1, Hn2, Hk1, Hk2. auto.
Qed.

Lemma aclose_trace (w : World) (self : Router) (sys : Sys) :
  exists done,
    trace (snd (aclose w self sys))
    = trace sys ++ map EvClose (dict_values (connections self)) ++ done /\
    Forall (fun e => is_closed_event e = true) done.
Proof.
  destruct (aclose_spec w self sys) as (done & Ht & _ & Hr).
  exists done. split; [exact Ht|].
  destruct (fst (fst (aclose w self sys))) as [e|u].
  - destruct Hr as (c & fin & _ & _ & _ & ->).
    apply Forall_app. split; [|repeat constructor].
    apply List.Forall_forall. intros e' He. apply in_map_iff in He as (c' & <- & _).
    reflexivity.
  - apply List.Forall_forall. intros e He.
    eapply Permutation_in in He; [|exact Hr].
    apply in_map_iff in He as (c' & <- & _). reflexivity.
Qed.

Lemma count_close_absent (n : nat) (l : list Connection) :
  ~ In n (map conn_id l) -> count (is_close_of n) (map EvClose l) = 0.
Proof.
  induction l as [|c rest IH]; simpl; [reflexivity|].
  intros H. unfold count in *. simpl.
  destruct (Nat.eqb_spec (conn_id c) n) as [E|E]; [tauto|].
  apply IH. tauto.
Qed.

(** Among distinct objects, each pooled connection has one [EvClose]. *)
Lemma count_close_once (c : Connection) (l : list Connection) :
  NoDup (map conn_id l) -> In c l ->
  count (is_close_of (conn_id c)) (map EvClose l) = 1.
Proof.
  induction l as [|c0 rest IH]; simpl; [tauto|].
  intros Hnd Hin. apply NoDup_cons in Hnd as [Hnot Hnd].
  rewrite list_elem_of_In in Hnot.
  unfold count in *. simpl. destruct Hin as [->|Hin].
  - rewrite Nat.eqb_refl. simpl. f_equal. apply count_close_absent. exact Hnot.
  - destruct (Nat.eqb_spec (conn_id c0) (conn_id c)) as [E|E].
    + exfalso. apply Hnot. rewrite E. apply in_map. exact Hin.
    + apply IH; assumption.
Qed.

(** ** Claims about the pool *)

(** C1, as stated, fails: when the first handshake for "a" fails, the second
    call makes a second Connection object for "a". *)
Lemma call_tool_makes_two_connections :
  let st := run_ops Sample.world_connect_fails_once
              [OpCallTool "a" "t1" None; OpCallTool "a" "t2" None]
              (Sample.router, Sample.sys) in
  count (is_new_for "a") (events_since Sample.sys (snd st)) = 2 /\
  connections (fst st) = [("a", Sample.conn_a 1)].
Proof.
  vm_compute. auto.
Qed.

(** C1, amended.  Once a call for server [s] has connected and pooled its
    Connection, that Connection stays the one pooled for [s] through every
    later operation; it is the only Connection made for [s] and the only one
    [connect] is invoked on from that call on; and every later call for [s]
    goes to it, making no object and invoking no [connect]. *)
Theorem one_connection_once_pooled (w : World) (self : Router) (sys : Sys)
    (s t : string) (p : option Params) (srv : Server) (ops : list op) :
  let c := new_conn srv sys in
  let st := run_ops w (OpCallTool s t p :: ops) (self, sys) in
  registry_ok (servers self) ->
  dict_get s (connections self) = None ->
  servers self !! s = Some srv ->
  connect_ok w (trace (connecting srv sys)) c = true ->
  dict_get s (connections (fst st)) = Some c /\
  count (is_new_for s) (events_since sys (snd st)) = 1 /\
  count (is_connect_for s) (events_since sys (snd st)) = 1 /\
  forall t' p', exists res,
    call_tool w (fst st) s t' p' (snd st)
    = (match res with Some r => inr r | None => inl (CallError c) end,
       fst st,
       emit_all [EvCall c t' (default [] p'); EvCalled c res] (snd st)).
Proof.
  intros c st Hreg Hp Hr Hc. unfold st. rewrite run_ops_cons.
  destruct (call_tool_connect_succeeds w self s t p sys srv Hp Hr Hc) as [res Hcall].
  fold c in Hcall.
  set (self1 := set_connections self (dict_set s c (connections self))) in *.
  set (sys1 := emit_all _ (connecting srv sys)) in *.
  assert (Hstep : run_op w (OpCallTool s t p) (self, sys) = (self1, sys1)).
  { unfold run_op. rewrite Hcall. reflexivity. }
  rewrite Hstep.
  destruct (run_ops_keeps_connection w ops s c self1 sys1) as (Hc2 & es & Ht & Hn & Hk).
  { exact Hreg. }
  { apply dict_get_set_eq. }
  assert (Hfirst : trace sys1
                   = trace sys ++ [EvConnNew c; EvConnect c; EvConnected c true;
                                   EvCall c t (default [] p); EvCalled c res]).
  { unfold sys1. rewrite trace_emit_all, trace_connecting, <- app_assoc. reflexivity. }
  assert (Hname : String.eqb (srv_name srv) s = true).
  { rewrite (Hreg _ _ Hr). apply String.eqb_refl. }
  rewrite Hfirst, <- app_assoc in Ht.
  rewrite (events_since_app _ _ _ Ht), !count_app, Hn, Hk.
  split; [exact Hc2|].
  split; [unfold count, c, new_conn; simpl; rewrite Hname; reflexivity|].
  split; [unfold count, c, new_conn; simpl; rewrite Hname; reflexivity|].
  intros t' p'. apply call_tool_pooled. exact Hc2.
Qed.

Lemma one_connection_once_pooled_witness :
  dict_get "a"
    (connections
       (fst (run_ops Sample.world
               [OpCallTool "a" "t1" None; OpCallTool "b" "t" None;
                OpCallTool "a" "t2" None; OpClose; OpCallTool "a" "t3" None]
               (Sample.router, Sample.sys))))
  = Some (Sample.conn_a 0).
Proof.
  apply (one_connection_once_pooled Sample.world Sample.router Sample.sys
           "a" "t1" None Sample.srv_a
           [OpCallTool "b" "t" None; OpCallTool "a" "t2" None; OpClose;
            OpCallTool "a" "t3" None]).
  - intros k srv Hk.
    destruct (decide (k = "b")) as [->|Hb].
    { vm_compute in Hk. injection Hk as <-. reflexivity. }
    destruct (decide (k = "a")) as [->|Ha].
    { vm_compute in Hk. injection Hk as <-. reflexivity. }
    unfold Sample.router in Hk. simpl in Hk.
    rewrite lookup_insert_ne in Hk by congruence.
    rewrite lookup_insert_ne in Hk by congruence.
    rewrite lookup_empty in Hk. discriminate.
  - reflexivity.
  - vm_compute. reflexivity.
  - reflexivity.
Defined.

(** C4, as stated, fails: [aclose] leaves the pool as it is, and the next call
    for the server goes to the pooled, closed connection. *)
Lemma aclose_keeps_pool_entries :
  let st := run_ops Sample.world [OpCallTool "a" "t1" None; OpClose]
              (Sample.router, Sample.sys) in
  let out := call_tool Sample.world (fst st) "a" "t2" None (snd st) in
  connections (fst st) = [("a", Sample.conn_a 0)] /\
  count (is_close_of 0) (trace (snd st)) = 1 /\
  events_since (snd st) (snd out)
  = [EvCall (Sample.conn_a 0) "t2" []; EvCalled (Sample.conn_a 0) (Some "t2")].
Proof.
  vm_compute. auto.
Qed.

(** C4, amended.  In any state the Router reaches from an empty pool, one
    [aclose] invokes close exactly once on each pooled connection; it leaves
    the pool as it is, so a later call for a pooled server goes to the pooled
    connection, with no new object and no [connect]. *)
Theorem aclose_closes_each_once_keeps_pool (w : World) (self0 : Router) (sys0 : Sys)
    (ops : list op) :
  let st := run_ops w ops (self0, sys0) in
  let out := aclose w (fst st) (snd st) in
  connections self0 = [] ->
  (forall c,
     In c (dict_values (connections (fst st))) ->
     count (is_close_of (conn_id c)) (events_since (snd st) (snd out)) = 1) /\
  connections (snd (fst out)) = connections (fst st) /\
  (forall s c t p,
     dict_get s (connections (fst st)) = Some c ->
     exists res,
       call_tool w (snd (fst out)) s t p (snd out)
       = (match res with Some r => inr r | None => inl (CallError c) end,
          snd (fst out),
          emit_all [EvCall c t (default [] p); EvCalled c res] (snd out))).
Proof.
  intros st out Hempty.
  assert (Hok : pool_ok (fst st) (snd st)).
  { apply run_ops_pool_ok, pool_ok_empty, Hempty. }
  assert (Hself : snd (fst out) = fst st) by apply aclose_self.
  destruct (aclose_trace w (fst st) (snd st)) as (done & Ht & Hf).
  fold out in Ht. split; [|split].
  - intros c Hin. rewrite (events_since_app _ _ _ Ht), count_app.
    rewrite (count_close_once c _ (proj1 Hok) Hin).
    rewrite count_none; [reflexivity|].
    eapply Forall_impl; [exact Hf|]. intros [] He; simpl in *; congruence.
  - rewrite Hself. reflexivity.
  - intros s c t p Hc. rewrite Hself. apply call_tool_pooled. exact Hc.
Qed.

Lemma aclose_closes_each_once_keeps_pool_witness :
  count (is_close_of 1)
    (events_since
       (snd (run_ops Sample.world [OpCallTool "a" "t" None; OpCallTool "b" "t" None]
               (Sample.router, Sample.sys)))
       (snd (aclose Sample.world
               (fst (run_ops Sample.world
                       [OpCallTool "a" "t" None; OpCallTool "b" "t" None]
                       (Sample.router, Sample.sys)))
               (snd (run_ops Sample.world
                       [OpCallTool "a" "t" None; OpCallTool "b" "t" None]
                       (Sample.router, Sample.sys))))))
  = 1.
Proof.
  apply (proj1 (aclose_closes_each_once_keeps_pool Sample.world Sample.router
                  Sample.sys [OpCallTool "a" "t" None; OpCallTool "b" "t" None]
                  eq_refl) (Sample.conn_b 1)).
  vm_compute. auto.
Defined.

(** ** Two calls in flight *)

Lemma resume_start_absent (w : World) (self : Router) (sys : Sys) (s t : string)
    (p : option Params) (srv : Server) :
  dict_get s (connections self) = None ->
  servers self !! s = Some srv ->
  resume w (CallStart s t p) self sys
  = (AwaitConnect s t p (new_conn srv sys), self, connecting srv sys).
Proof.
  intros Hp Hr. unfold resume. rewrite Hp, Hr. reflexivity.
Qed.

Lemma resume_connected (w : World) (self : Router) (sys : Sys) (s t : string)
    (p : option Params) (c : Connection) :
  connect_ok w (trace sys) c = true ->
  resume w (AwaitConnect s t p c) self sys
  = (AwaitCall c t (default [] p),
     set_connections self (dict_set s c (connections self)),
     emit (EvCall c t (default [] p)) (emit (EvConnected c true) sys)).
Proof.
  intros Hc. unfold resume. rewrite Hc. reflexivity.
Qed.

(** C9.  Two calls for the same registered server that is not yet pooled,
    resumed in turn: both find the pool without the server and both make a
    Connection and start its handshake; the first to come back pools its
    Connection, the second then puts its own in its place.  Two Connection
    objects exist for one server name, and each call goes on with its own. *)
Theorem call_tool_race (w : World) (self : Router) (sys : Sys) (s ta tb : string)
    (pa pb : option Params) (srv : Server) :
  let ca := {| conn_id := next_conn sys; conn_server := srv |} in
  let cb := {| conn_id := S (next_conn sys); conn_server := srv |} in
  let run schedule :=
    interleave w schedule (CallStart s ta pa) (CallStart s tb pb) self sys in
  dict_get s (connections self) = None ->
  servers self !! s = Some srv ->
  (forall tr c, connect_ok w tr c = true) ->
  fst (fst (run [true; false]))
  = (AwaitConnect s ta pa ca, AwaitConnect s tb pb cb) /\
  events_since sys (snd (run [true; false]))
  = [EvConnNew ca; EvConnect ca; EvConnNew cb; EvConnect cb] /\
  ca <> cb /\
  dict_get s (connections (snd (fst (run [true; false; true])))) = Some ca /\
  dict_get s (connections (snd (fst (run [true; false; true; false])))) = Some cb /\
  length (connections (snd (fst (run [true; false; true; false]))))
  = S (length (connections self)) /\
  fst (fst (run [true; false; true; false]))
  = (AwaitCall ca ta (default [] pa), AwaitCall cb tb (default [] pb)).
Proof.
  intros ca cb run Hp Hr Hok. unfold run. cbn [interleave].
  rewrite (resume_start_absent w self sys s ta pa srv Hp Hr).
  rewrite (resume_start_absent w self (connecting srv sys) s tb pb srv Hp Hr).
  change (new_conn srv sys) with ca.
  change (new_conn srv (connecting srv sys)) with cb.
  rewrite !resume_connected by apply Hok.
  cbn [fst snd connections set_connections].
  split; [reflexivity|]. split.
  { apply events_since_app. rewrite !trace_connecting, <- app_assoc. reflexivity. }
  split; [intros [= E]; lia|].
  split; [apply dict_get_set_eq|].
  split; [apply dict_get_set_eq|].
  split; [|reflexivity].
  rewrite (dict_set_length_present s cb ca) by apply dict_get_set_eq.
  rewrite (dict_set_fresh _ _ _ Hp), length_app. simpl. lia.
Qed.

Lemma call_tool_race_witness :
  dict_get "a"
    (connections
       (snd (fst (interleave Sample.world [true; false; true; false]
                    (CallStart "a" "t1" None) (CallStart "a" "t2" None)
                    Sample.router Sample.sys))))
  = Some (Sample.conn_a 1).
Proof.
  apply (call_tool_race Sample.world Sample.router Sample.sys "a" "t1" "t2"
           None None Sample.srv_a).
  - reflexivity.
  - vm_compute. reflexivity.
  - intros tr c. reflexivity.
Defined.

(** ** More about the operations *)

(** An operation writes to [self.connections] only. *)
Lemma run_op_frame (w : World) (o : op) (self : Router) (sys : Sys) :
  servers (fst (run_op w o (self, sys))) = servers self /\
  config (fst (run_op w o (self, sys))) = config self /\
  matcher (fst (run_op w o (self, sys))) = matcher self.
Proof.
  destruct o as [q|s t p| |exc]; simpl.
  - auto.
  - destruct (call_tool_cases w self s t p sys)
      as [(c & res & _ & ->)|[(_ & _ & ->)|[(srv & _ & _ & ->)|(srv & res & _ & _ & ->)]]];
      simpl; auto.
  - pose proof (aclose_self w self sys) as H.
    destruct (aclose w self sys) as [[res self'] sys']. simpl in *. subst. auto.
  - unfold aexit. pose proof (aclose_self w self sys) as H.
    destruct (aclose w self sys) as [[res self'] sys']. simpl in *. subst. auto.
Qed.

Lemma router_fields_read_only_aux (w : World) (ops : list op) :
  forall self sys,
    servers (fst (run_ops w ops (self, sys))) = servers self /\
    config (fst (run_ops w ops (self, sys))) = config self /\
    matcher (fst (run_ops w ops (self, sys))) = matcher self.
Proof.
  induction ops as [|o rest IH]; intros self sys; [simpl; auto|].
  rewrite run_ops_cons.
  destruct (run_op_frame w o self sys) as (Hs & Hc & Hm).
  destruct (run_op w o (self, sys)) as [self1 sys1]. simpl in *.
  destruct (IH self1 sys1) as (Hs' & Hc' & Hm').
  rewrite Hs', Hc', Hm'. auto.
Qed.

(** X1.  The registry, the configuration and the matcher of a Router are
    never written after construction: whatever operations run, in whatever
    order and with whatever outcome, they are the ones the Router started
    with. *)
Theorem router_fields_read_only (w : World) (ops : list op) (self : Router)
    (sys : Sys) :
  servers (fst (run_ops w ops (self, sys))) = servers self /\
  config (fst (run_ops w ops (self, sys))) = config self /\
  matcher (fst (run_ops w ops (self, sys))) = matcher self.
Proof.
  apply router_fields_read_only_aux.
Qed.

Lemma run_ops_route_trace (w : World) (queries : list string) (self : Router) :
  forall sys,
    fst (run_ops w (map OpRoute queries) (self, sys)) = self /\
    trace (snd (run_ops w (map OpRoute queries) (self, sys)))
    = trace sys ++ map EvMatch queries /\
    next_conn (snd (run_ops w (map OpRoute queries) (self, sys))) = next_conn sys.
Proof.
  induction queries as [|q rest IH]; intros sys.
  - simpl. rewrite app_nil_r. auto.
  - change (map OpRoute (q :: rest)) with (OpRoute q :: map OpRoute rest).
    rewrite run_ops_cons.
    change (run_op w (OpRoute q) (self, sys)) with (self, emit (EvMatch q) sys).
    destruct (IH (emit (EvMatch q) sys)) as (Hs & Ht & Hn).
    rewrite Hs, Ht, Hn. simpl. rewrite <- app_assoc. auto.
Qed.

(** X2.  [route] only asks the matcher: a run of routing calls leaves the
    Router as it is, makes no Connection object, and asks the matcher once
    per call, in order, also for a query it has already been asked. *)
Theorem route_only_asks_matcher (w : World) (queries : list string) (self : Router)
    (sys : Sys) :
  fst (run_ops w (map OpRoute queries) (self, sys)) = self /\
  events_since sys (snd (run_ops w (map OpRoute queries) (self, sys)))
  = map EvMatch queries /\
  next_conn (snd (run_ops w (map OpRoute queries) (self, sys))) = next_conn sys.
Proof.
  destruct (run_ops_route_trace w queries self sys) as (Hs & Ht & Hn).
  split; [exact Hs|]. split; [|exact Hn].
  apply events_since_app. exact Ht.
Qed.

(** X3.  What one [call_tool] does to the pool: the entries of the other
    servers are untouched, and the pool either stays as it is or gains, at
    its end, one entry for the called server; it gains one only when the
    server was not pooled and is registered. *)
Theorem call_tool_pool_effect (w : World) (self : Router) (s t : string)
    (p : option Params) (sys : Sys) :
  (forall s',
     s' <> s ->
     dict_get s' (connections (snd (fst (call_tool w self s t p sys))))
     = dict_get s' (connections self)) /\
  (connections (snd (fst (call_tool w self s t p sys))) = connections self \/
   (dict_get s (connections self) = None /\
    exists srv,
      servers self !! s = Some srv /\
      connections (snd (fst (call_tool w self s t p sys)))
      = connections self ++ [(s, new_conn srv sys)])).
Proof.
  destruct (call_tool_cases w self s t p sys)
    as [(c & res & _ & ->)|[(_ & _ & ->)|[(srv & _ & _ & ->)|(srv & res & Hp & Hr & ->)]]];
    simpl; auto.
  split.
  - intros s' Hne. apply dict_get_set_ne. congruence.
  - right. split; [exact Hp|]. exists srv. split; [exact Hr|].
    apply dict_set_fresh. exact Hp.
Qed.

Lemma last_two (l : list event) (a b : event) : last (l ++ [a; b]) = Some b.
Proof.
  change [a; b] with ([a] ++ [b]). rewrite app_assoc. apply last_snoc.
Qed.

Lemma last_three (l : list event) (a b c : event) : last (l ++ [a; b; c]) = Some c.
Proof.
  change [a; b; c] with ([a; b] ++ [c]). rewrite app_assoc. apply last_snoc.
Qed.

(** X4.  The outcome of [call_tool] tells what happened to the pool.  A
    result, or a failure of the tool call itself, leaves the connection that
    was called pooled under the server's name (a failing connection is not
    evicted); a failed handshake and an unknown server leave the Router as it
    was, and the unknown server leaves the outside untouched too.  No other
    exception comes out of [call_tool]. *)
Theorem call_tool_outcome (w : World) (self : Router) (s t : string)
    (p : option Params) (sys : Sys) :
  let out := call_tool w self s t p sys in
  match fst (fst out) with
  | inr r =>
      exists c,
        dict_get s (connections (snd (fst out))) = Some c /\
        last (trace (snd out)) = Some (EvCalled c (Some r))
  | inl (CallError c) =>
      dict_get s (connections (snd (fst out))) = Some c /\
      last (trace (snd out)) = Some (EvCalled c None)
  | inl (ConnectError c) =>
      snd (fst out) = self /\ dict_get s (connections self) = None /\
      last (trace (snd out)) = Some (EvConnected c false)
  | inl (ValueError msg) =>
      snd (fst out) = self /\ snd out = sys /\
      dict_get s (connections self) = None /\ servers self !! s = None
  | inl _ => False
  end.
Proof.
  intros out. unfold out.
  destruct (call_tool_cases w self s t p sys)
    as [(c & res & Hp & ->)|[(Hp & Hr & ->)|[(srv & Hp & Hr & ->)|(srv & res & Hp & Hr & ->)]]];
    simpl.
  - destruct res as [r|]; [exists c|]; (split; [exact Hp|apply last_two]).
  - auto.
  - split; [reflexivity|]. split; [exact Hp|]. apply last_snoc.
  - destruct res as [r|]; [exists (new_conn srv sys)|];
      (split; [apply dict_get_set_eq|apply last_three]).
Qed.

(** ** More about construction *)

(** A successful construction, phase by phase. *)
Lemma Router_init_inv (w : World) (arg : ConfigArg) (sys sys' : Sys) (self : Router) :
  Router_init w arg sys = (inr self, sys') ->
  exists cfg srvs sys1 sys2,
    load_config w arg sys = (inr cfg, sys1) /\
    build_servers w (default [] (mcpServers cfg)) ∅ sys1 = (inr srvs, sys2) /\
    init_config w arg sys = (inr (cfg, srvs), sys2) /\
    init_runtime w cfg srvs sys2 = (inr self, sys').
Proof.
  intros H. unfold Router_init, bind in H.
  destruct (init_config w arg sys) as [[e|[cfg srvs]] sys2] eqn:Ei; [discriminate|].
  simpl in H. pose proof Ei as Ei'. unfold init_config, bind in Ei'.
  destruct (load_config w arg sys) as [[e|cfg'] sys1]; [discriminate|].
  destruct (build_servers w _ ∅ sys1) as [[e|srvs'] sys2'] eqn:E; [discriminate|].
  unfold ret in Ei'. injection Ei' as -> -> ->.
  exists cfg, srvs, sys1, sys2. auto.
Qed.

Lemma build_servers_spec (w : World) (items : list (string * ConfigData)) :
  forall acc sys srvs sys',
    build_servers w items acc sys = (inr srvs, sys') ->
    (forall name,
       is_Some (srvs !! name) <-> is_Some (acc !! name) \/ In name (map fst items)) /\
    (forall name srv,
       srvs !! name = Some srv ->
       acc !! name = Some srv \/
       exists data sc,
         In (name, data) items /\ server_config_new w name data = Some sc /\
         srv = {| srv_name := name; srv_config := sc |}).
Proof.
  induction items as [|[n config_data] rest IH]; intros acc sys srvs sys'; simpl.
  - intros [= <- _]. split; [intros name; tauto|auto].
  - unfold bind, tell. simpl.
    destruct (server_config_new w n config_data) as [sc|] eqn:E; [|discriminate].
    intros H. apply IH in H as [Hdom Hval]. split.
    + intros name. rewrite Hdom.
      destruct (decide (n = name)) as [->|Hne].
      * rewrite lookup_insert_eq. split; [auto|]. intros _. left. eauto.
      * rewrite lookup_insert_ne by exact Hne. tauto.
    + intros name srv Hsrv. apply Hval in Hsrv as [Hacc|(data & sc' & Hin & Hsc & ->)].
      * destruct (decide (n = name)) as [->|Hne].
        -- rewrite lookup_insert_eq in Hacc. injection Hacc as <-.
           right. exists config_data, sc. auto.
        -- rewrite lookup_insert_ne in Hacc by exact Hne. auto.
      * right. exists data, sc'. auto.
Qed.

(** X5.  A Router that was constructed has in its registry exactly the names
    of the ["mcpServers"] entries of its configuration; the Server kept under
    a name carries that name and the validated form of an entry of that
    name. *)
Theorem Router_init_registry (w : World) (arg : ConfigArg) (sys sys' : Sys)
    (self : Router) :
  Router_init w arg sys = (inr self, sys') ->
  (forall name,
     is_Some (servers self !! name)
     <-> In name (map fst (default [] (mcpServers (config self))))) /\
  (forall name srv,
     servers self !! name = Some srv ->
     srv_name srv = name /\
     exists data,
       In (name, data) (default [] (mcpServers (config self))) /\
       server_config_new w name data = Some (srv_config srv)).
Proof.
  intros H. apply Router_init_inv in H as (cfg & srvs & sys1 & sys2 & _ & Hb & _ & Hr).
  apply init_runtime_inr in Hr as (_ & -> & ->).
  apply build_servers_spec in Hb as [Hdom Hval]. split.
  - intros name. rewrite Hdom, lookup_empty. split; [|auto].
    intros [[x Hx]|Hin]; [discriminate|exact Hin].
  - intros name srv Hsrv. apply Hval in Hsrv as [Hacc|(data & sc & Hin & Hsc & ->)].
    + rewrite lookup_empty in Hacc. discriminate.
    + simpl. split; [reflexivity|]. exists data. auto.
Qed.

Lemma Router_init_registry_witness :
  is_Some (servers Sample.router !! "a")
  <-> In "a" (map fst (default [] (mcpServers (config Sample.router)))).
Proof.
  apply (proj1 (Router_init_registry Sample.world (ArgDict Sample.cfg) Sample.sys
                  (snd (Router_init Sample.world (ArgDict Sample.cfg) Sample.sys))
                  Sample.router eq_refl) "a").
Defined.

Lemma build_servers_invalid (w : World) (name : string) (data : ConfigData)
    (after : list (string * ConfigData)) (before : list (string * ConfigData)) :
  Forall (entry_valid w) before ->
  server_config_new w name data = None ->
  forall acc sys,
    fst (build_servers w (before ++ (name, data) :: after) acc sys)
    = inl (ValidationError name) /\
    trace (snd (build_servers w (before ++ (name, data) :: after) acc sys))
    = trace sys ++ map EvServerNew (map fst before ++ [name]).
Proof.
  intros Hvalid Hbad. induction Hvalid as [|[n d] rest [sc Hsc] _ IH]; intros acc sys; simpl.
  - unfold bind, tell, raise. simpl. rewrite Hbad. auto.
  - unfold bind, tell. simpl in *. rewrite Hsc.
    destruct (IH (<[n := {| srv_name := n; srv_config := sc |}]> acc)
                (emit (EvServerNew n) sys)) as [Hf Ht].
    rewrite Hf, Ht. simpl. rewrite <- app_assoc. auto.
Qed.

(** X6.  Construction is fail-fast on the configuration: at the first entry of
    ["mcpServers"] that does not validate it raises for that entry, having
    looked at the entries before it and at nothing else; no entry after it is
    looked at, the matcher is not made and no environment variable is read. *)
Theorem Router_init_invalid_entry (w : World) (d : ConfigDict) (sys : Sys)
    (before after : list (string * ConfigData)) (name : string) (data : ConfigData) :
  mcpServers d = Some (before ++ (name, data) :: after) ->
  Forall (entry_valid w) before ->
  server_config_new w name data = None ->
  fst (Router_init w (ArgDict d) sys) = inl (ValidationError name) /\
  events_since sys (snd (Router_init w (ArgDict d) sys))
  = map EvServerNew (map fst before ++ [name]).
Proof.
  intros Hd Hvalid Hbad.
  destruct (build_servers_invalid w name data after before Hvalid Hbad ∅ sys) as [Hf Ht].
  assert (E : Router_init w (ArgDict d) sys
              = (inl (ValidationError name),
                 snd (build_servers w (before ++ (name, data) :: after) ∅ sys))).
  { unfold Router_init, init_config, load_config, bind, ret. rewrite Hd. simpl.
    destruct (build_servers w _ ∅ sys) as [[e|srvs] sys1]; simpl in *;
      [injection Hf as ->; reflexivity|discriminate]. }
  rewrite E. simpl. split; [reflexivity|]. apply events_since_app. exact Ht.
Qed.

Lemma Router_init_invalid_entry_witness :
  fst (Router_init Sample.world_strict
         (ArgDict {| mcpServers := Some [("a", Sample.data_a); ("bad", []); ("b", Sample.data_b)] |})
         Sample.sys)
  = inl (ValidationError "bad").
Proof.
  apply (Router_init_invalid_entry Sample.world_strict _ Sample.sys
           [("a", Sample.data_a)] [("b", Sample.data_b)] "bad" []).
  - reflexivity.
  - repeat constructor. unfold entry_valid. simpl. eauto.
  - reflexivity.
Defined.

(** *** The constructor reads the environment, not the trace *)

Lemma uniform_ret {A} (a : A) : uniform (ret a).
Proof.
  intros s1 s2 He. simpl. split; [reflexivity|]. split; [exact He|].
  exists []. rewrite !app_nil_r. auto.
Qed.

Lemma uniform_raise {A} (e : exn) : uniform (@raise A e).
Proof.
  intros s1 s2 He. simpl. split; [reflexivity|]. split; [exact He|].
  exists []. rewrite !app_nil_r. auto.
Qed.

Lemma uniform_tell (e : event) : uniform (tell e).
Proof.
  intros s1 s2 He. simpl. split; [reflexivity|]. split; [exact He|].
  exists [e]. auto.
Qed.

Lemma uniform_bind {A B} (m : M A) (k : A -> M B) :
  uniform m -> (forall a, uniform (k a)) -> uniform (bind m k).
Proof.
  intros Hm Hk s1 s2 He. unfold bind.
  destruct (Hm s1 s2 He) as (Hf & He' & es & H1 & H2).
  destruct (m s1) as [[e1|a1] s1'], (m s2) as [[e2|a2] s2']; simpl in *;
    try discriminate.
  - split; [congruence|]. split; [exact He'|]. exists es. auto.
  - injection Hf as ->.
    destruct (Hk a2 s1' s2' He') as (Hf2 & He2 & es2 & H3 & H4).
    split; [exact Hf2|]. split; [exact He2|].
    exists (es ++ es2). rewrite H3, H4, H1, H2, <- !app_assoc. auto.
Qed.

Lemma uniform_getenv (var : string) : uniform (getenv var).
Proof.
  intros s1 s2 He. simpl. rewrite He. split; [reflexivity|]. split; [reflexivity|].
  exists [EvGetenv var]. auto.
Qed.

Lemma uniform_load_dotenv (w : World) : uniform (load_dotenv w).
Proof.
  intros s1 s2 He. simpl. rewrite He. split; [reflexivity|]. split; [reflexivity|].
  exists [EvLoadDotenv]. auto.
Qed.

Lemma uniform_exists (w : World) (p : PathLike) : uniform (exists_ w p).
Proof.
  apply uniform_bind; [apply uniform_tell|]. intros _. apply uniform_ret.
Qed.

Lemma uniform_load_config (w : World) (arg : ConfigArg) : uniform (load_config w arg).
Proof.
  destruct arg as [d|p|v]; simpl.
  - apply uniform_ret.
  - apply uniform_bind; [apply uniform_exists|]. intros [|]; [|apply uniform_ret].
    apply uniform_bind; [apply uniform_tell|]. intros _.
    destruct (json_load w p); [apply uniform_ret|apply uniform_raise].
  - apply uniform_raise.
Qed.

Lemma uniform_build_servers (w : World) (items : list (string * ConfigData)) :
  forall acc, uniform (build_servers w items acc).
Proof.
  induction items as [|[name config_data] rest IH]; intros acc; simpl.
  - apply uniform_ret.
  - apply uniform_bind; [apply uniform_tell|]. intros _.
    destruct (server_config_new w name config_data); [apply IH|apply uniform_raise].
Qed.

Lemma uniform_init_runtime (w : World) (cfg : ConfigDict) (srvs : gmap string Server) :
  uniform (init_runtime w cfg srvs).
Proof.
  unfold init_runtime, ToolMatcher_new, setup_openai_client, load_data, api_key_error.
  apply uniform_bind; [apply uniform_load_dotenv|]. intros _.
  apply uniform_bind.
  { apply uniform_bind; [apply uniform_tell|]. intros _. apply uniform_ret. }
  intros m.
  apply uniform_bind; [apply uniform_getenv|]. intros base_url_env.
  apply uniform_bind; [apply uniform_getenv|]. intros api_key.
  apply uniform_bind; [apply uniform_getenv|]. intros data_path_env.
  destruct api_key as [key|]; [|apply uniform_raise].
  destruct (str_truthy key); [|apply uniform_raise].
  destruct (pathlike_truthy _); [|apply uniform_raise].
  apply uniform_bind; [apply uniform_exists|]. intros [|]; [|apply uniform_raise].
  apply uniform_bind.
  { apply uniform_bind; [apply uniform_tell|]. intros _. apply uniform_ret. }
  intros m1.
  apply uniform_bind; [|intros m2; apply uniform_ret].
  apply uniform_bind; [apply uniform_tell|]. intros _.
  destruct (load_data_ok w _); [apply uniform_ret|apply uniform_raise].
Qed.

Lemma uniform_Router_init (w : World) (arg : ConfigArg) : uniform (Router_init w arg).
Proof.
  unfold Router_init, init_config.
  apply uniform_bind; [|intros cs; apply uniform_init_runtime].
  apply uniform_bind; [apply uniform_load_config|]. intros cfg.
  apply uniform_bind; [apply uniform_build_servers|]. intros srvs.
  apply uniform_ret.
Qed.

(** X7.  Constructing from the path of an existing file that holds a
    configuration is constructing from that configuration: the same Router or
    the same exception comes out, and the outside sees the same events after
    the two that read the file. *)
Theorem Router_init_path_as_dict (w : World) (p : list string) (d : ConfigDict)
    (sys : Sys) :
  path_exists w (PPath p) = true ->
  json_load w p = Some d ->
  fst (Router_init w (ArgPath p) sys) = fst (Router_init w (ArgDict d) sys) /\
  events_since sys (snd (Router_init w (ArgPath p) sys))
  = EvPathExists (PPath p) :: EvJsonLoad p
      :: events_since sys (snd (Router_init w (ArgDict d) sys)).
Proof.
  intros Hp Hj.
  set (sys2 := emit (EvJsonLoad p) (emit (EvPathExists (PPath p)) sys)).
  assert (E : Router_init w (ArgPath p) sys = Router_init w (ArgDict d) sys2).
  { unfold Router_init, init_config, load_config, exists_. unfold bind, tell, ret.
    simpl. rewrite Hp. simpl. rewrite Hj. reflexivity. }
  rewrite E.
  destruct (uniform_Router_init w (ArgDict d) sys2 sys eq_refl)
    as (Hf & _ & es & H2 & H1).
  split; [exact Hf|].
  rewrite (events_since_app _ _ _ H1).
  apply events_since_app. rewrite H2. unfold sys2. simpl.
  rewrite <- !app_assoc. reflexivity.
Qed.

Lemma Router_init_path_as_dict_witness :
  fst (Router_init Sample.world_with_config (ArgPath ["etc"; "mcp.json"]) Sample.sys)
  = fst (Router_init Sample.world_with_config (ArgDict Sample.cfg) Sample.sys).
Proof.
  apply (Router_init_path_as_dict Sample.world_with_config ["etc"; "mcp.json"]
           Sample.cfg Sample.sys); reflexivity.
Defined.

Lemma init_runtime_success (w : World) (cfg : ConfigDict) (srvs : gmap string Server)
    (sys sys' : Sys) (self : Router) :
  init_runtime w cfg srvs sys = (inr self, sys') ->
  exists key,
    credential w sys = Some key /\ str_truthy key = true /\
    data_path_ok w sys = true /\
    load_data_ok w (data_path w sys) = true /\
    matcher self
    = {| embedding_model := "text-embedding-v4"; dimensions := 1024;
         top_servers := 5; top_tools := 3;
         client := Some (default default_base_url
                           (effective_env w sys !! "DASHSCOPE_BASE_URL"), key);
         data := Some (data_path w sys) |}.
Proof.
  unfold data_path_ok, data_path, credential, effective_env, init_runtime, bind,
    ToolMatcher_new, setup_openai_client, load_data, getenv, load_dotenv, exists_,
    tell, ret, raise, bind. simpl.
  destruct ((environ sys ∪ dotenv w) !! "DASHSCOPE_API_KEY") as [key|]; simpl;
    [|discriminate].
  destruct (str_truthy key) eqn:Hk; [|discriminate].
  destruct (pathlike_truthy _) eqn:Ht; simpl; [|discriminate].
  destruct (path_exists w _) eqn:Hx; simpl; [|discriminate].
  destruct (load_data_ok w _) eqn:Hl; simpl; [|discriminate].
  intros [= <- _]. exists key. simpl.
  repeat match goal with |- _ /\ _ => split end;
    first [reflexivity|assumption].
Qed.

(** X8.  A Router is only ever constructed with its runtime parameters in
    order: the credential is set and not empty, the index path names an
    existing file and the index was loaded.  Its matcher has the fixed
    parameters of the source, the credential, the base URL of the environment
    or else the default one, and that index. *)
Theorem Router_init_success_parameters (w : World) (arg : ConfigArg) (sys sys' : Sys)
    (self : Router) :
  Router_init w arg sys = (inr self, sys') ->
  exists key,
    credential w sys = Some key /\ str_truthy key = true /\
    data_path_ok w sys = true /\
    load_data_ok w (data_path w sys) = true /\
    matcher self
    = {| embedding_model := "text-embedding-v4"; dimensions := 1024;
         top_servers := 5; top_tools := 3;
         client := Some (default default_base_url
                           (effective_env w sys !! "DASHSCOPE_BASE_URL"), key);
         data := Some (data_path w sys) |}.
Proof.
  intros H. apply Router_init_inv in H as (cfg & srvs & sys1 & sys2 & _ & _ & Hc & Hr).
  assert (He : environ sys2 = environ sys).
  { pose proof (init_config_environ w arg sys) as E. rewrite Hc in E. exact E. }
  apply init_runtime_success in Hr as (key & Hk & Ht & Hd & Hl & Hm).
  unfold credential, data_path_ok, data_path, effective_env in *.
  rewrite He in *. exists key. auto.
Qed.

Lemma Router_init_success_parameters_witness :
  exists key,
    credential Sample.world Sample.sys = Some key /\ str_truthy key = true /\
    data_path_ok Sample.world Sample.sys = true /\
    load_data_ok Sample.world (data_path Sample.world Sample.sys) = true /\
    matcher Sample.router
    = {| embedding_model := "text-embedding-v4"; dimensions := 1024;
         top_servers := 5; top_tools := 3;
         client := Some (default default_base_url
                           (effective_env Sample.world Sample.sys !! "DASHSCOPE_BASE_URL"),
                         key);
         data := Some (data_path Sample.world Sample.sys) |}.
Proof.
  apply (Router_init_success_parameters Sample.world (ArgDict Sample.cfg) Sample.sys
           (snd (Router_init Sample.world (ArgDict Sample.cfg) Sample.sys))
           Sample.router).
  vm_compute. reflexivity.
Defined.

(** ** Invariants of the pool *)

Lemma dict_get_None_keys (k : string) (d : Pool) :
  dict_get k d = None -> ~ In k (map fst d).
Proof.
  induction d as [|[k' v'] rest IH]; simpl; [tauto|].
  destruct (String.eqb_spec k k') as [->|Hne]; [discriminate|].
  intros H [E|Hin]; [congruence|]. exact (IH H Hin).
Qed.

Lemma dict_get_In_pair (k : string) (v : Connection) (d : Pool) :
  dict_get k d = Some v -> In (k, v) d.
Proof.
  induction d as [|[k' v'] rest IH]; simpl; [discriminate|].
  destruct (String.eqb_spec k k') as [->|Hne]; [intros [= ->]; auto|auto].
Qed.

Lemma run_op_pool_registered (w : World) (o : op) (self : Router) (sys : Sys) :
  pool_registered self -> pool_registered (fst (run_op w o (self, sys))).
Proof.
  intros Hreg. destruct o as [q|s t p| |exc]; simpl.
  - exact Hreg.
  - destruct (call_tool_cases w self s t p sys)
      as [(c & res & _ & ->)|[(_ & _ & ->)|[(srv & _ & _ & ->)|(srv & res & Hp & Hr & ->)]]];
      simpl; try exact Hreg.
    intros s' c'. unfold pool_registered in Hreg. simpl.
    rewrite (dict_set_fresh _ _ _ Hp). intros Hin.
    apply in_app_or in Hin as [Hin|[[= <- <-]|[]]]; [auto|exact Hr].
  - pose proof (aclose_self w self sys) as H.
    destruct (aclose w self sys) as [[res self'] sys']. simpl in *. subst. exact Hreg.
  - unfold aexit. pose proof (aclose_self w self sys) as H.
    destruct (aclose w self sys) as [[res self'] sys']. simpl in *. subst. exact Hreg.
Qed.

Lemma run_op_pool_keys (w : World) (o : op) (self : Router) (sys : Sys) :
  NoDup (map fst (connections self)) ->
  NoDup (map fst (connections (fst (run_op w o (self, sys))))).
Proof.
  intros Hnd. destruct o as [q|s t p| |exc]; simpl.
  - exact Hnd.
  - destruct (call_tool_cases w self s t p sys)
      as [(c & res & _ & ->)|[(_ & _ & ->)|[(srv & _ & _ & ->)|(srv & res & Hp & Hr & ->)]]];
      simpl; try exact Hnd.
    rewrite (dict_set_fresh _ _ _ Hp), map_app. simpl.
    apply NoDup_app. split; [exact Hnd|]. split; [|apply NoDup_singleton].
    intros k Hk Hk'. apply list_elem_of_singleton in Hk'. subst k.
    apply list_elem_of_In in Hk. exact (dict_get_None_keys _ _ Hp Hk).
  - pose proof (aclose_self w self sys) as H.
    destruct (aclose w self sys) as [[res self'] sys']. simpl in *. subst. exact Hnd.
  - unfold aexit. pose proof (aclose_self w self sys) as H.
    destruct (aclose w self sys) as [[res self'] sys']. simpl in *. subst. exact Hnd.
Qed.

Lemma run_ops_invariant (P : Router -> Prop) (w : World) :
  (forall o self sys, P self -> P (fst (run_op w o (self, sys)))) ->
  forall ops self sys, P self -> P (fst (run_ops w ops (self, sys))).
Proof.
  intros Hstep ops. induction ops as [|o rest IH]; intros self sys HP; [exact HP|].
  rewrite run_ops_cons. pose proof (Hstep o self sys HP) as H.
  destruct (run_op w o (self, sys)) as [self1 sys1]. apply IH. exact H.
Qed.

(** X9.  Starting from an empty pool, whatever operations run, every pool
    entry holds a Connection that was made for the Server the registry has
    under the entry's name: the pool never holds a connection to an
    undeclared server, nor one filed under another server's name. *)
Theorem pool_entries_registered (w : World) (ops : list op) (self0 : Router)
    (sys0 : Sys) (s : string) (c : Connection) :
  connections self0 = [] ->
  In (s, c) (connections (fst (run_ops w ops (self0, sys0)))) ->
  servers self0 !! s = Some (conn_server c).
Proof.
  intros Hempty Hin.
  assert (Hreg : pool_registered (fst (run_ops w ops (self0, sys0)))).
  { apply run_ops_invariant; [apply run_op_pool_registered|].
    intros s' c'. rewrite Hempty. intros []. }
  destruct (router_fields_read_only_aux w ops self0 sys0) as (Hs & _).
  rewrite <- Hs. apply Hreg. exact Hin.
Qed.

Lemma pool_entries_registered_witness :
  servers Sample.router !! "b" = Some (conn_server (Sample.conn_b 1)).
Proof.
  apply (pool_entries_registered Sample.world
           [OpCallTool "a" "t" None; OpCallTool "b" "t" None; OpClose]
           Sample.router Sample.sys "b" (Sample.conn_b 1)).
  - reflexivity.
  - vm_compute. auto.
Defined.

(** X10.  Starting from an empty pool, whatever operations run, the pool has
    at most one entry per server name, its Connections are pairwise distinct
    objects, and each of them was made before now. *)
Theorem pool_entries_unique (w : World) (ops : list op) (self0 : Router) (sys0 : Sys) :
  connections self0 = [] ->
  NoDup (map fst (connections (fst (run_ops w ops (self0, sys0))))) /\
  NoDup (map conn_id (dict_values (connections (fst (run_ops w ops (self0, sys0)))))) /\
  Forall (fun c => conn_id c < next_conn (snd (run_ops w ops (self0, sys0))))
    (dict_values (connections (fst (run_ops w ops (self0, sys0))))).
Proof.
  intros Hempty. split.
  - apply (run_ops_invariant (fun self => NoDup (map fst (connections self)))).
    + apply run_op_pool_keys.
    + rewrite Hempty. constructor.
  - apply run_ops_pool_ok, pool_ok_empty, Hempty.
Qed.

Lemma pool_entries_unique_witness :
  NoDup (map fst (connections
                    (fst (run_ops Sample.world
                            [OpCallTool "a" "t" None; OpCallTool "b" "t" None;
                             OpCallTool "a" "u" None]
                            (Sample.router, Sample.sys))))).
Proof.
  apply (pool_entries_unique Sample.world
           [OpCallTool "a" "t" None; OpCallTool "b" "t" None; OpCallTool "a" "u" None]
           Sample.router Sample.sys).
  reflexivity.
Defined.

(** ** Invariants of the trace *)

(** The events of one operation. *)
Lemma run_op_trace (w : World) (o : op) (self : Router) (sys : Sys) :
  exists es, trace (snd (run_op w o (self, sys))) = trace sys ++ es.
Proof.
  destruct o as [q|s t p| |exc]; simpl.
  - eexists. reflexivity.
  - destruct (call_tool_cases w self s t p sys)
      as [(c & res & _ & ->)|[(_ & _ & ->)|[(srv & _ & _ & ->)|(srv & res & _ & _ & ->)]]];
      simpl.
    + eexists. reflexivity.
    + exists []. rewrite app_nil_r. reflexivity.
    + unfold connecting, new_conn, MCPConnection_new. simpl.
      rewrite <- !app_assoc. eexists. reflexivity.
    + unfold connecting, new_conn, MCPConnection_new. simpl.
      rewrite <- !app_assoc. eexists. reflexivity.
  - destruct (aclose_events_close w self sys) as (es & Ht & _).
    destruct (aclose w self sys) as [[res self'] sys']. eauto.
  - unfold aexit. destruct (aclose_events_close w self sys) as (es & Ht & _).
    destruct (aclose w self sys) as [[res self'] sys']. eauto.
Qed.

(** One operation makes Connections from registry entries only. *)
Lemma run_op_new_registered (w : World) (o : op) (self : Router) (sys : Sys) :
  exists es,
    trace (snd (run_op w o (self, sys))) = trace sys ++ es /\
    forall c, In (EvConnNew c) es -> exists s, servers self !! s = Some (conn_server c).
Proof.
  destruct o as [q|s t p| |exc]; simpl.
  - eexists. split; [reflexivity|]. intros c [H|[]]. discriminate.
  - destruct (call_tool_cases w self s t p sys)
      as [(c & res & _ & ->)|[(_ & _ & ->)|[(srv & _ & Hr & ->)|(srv & res & _ & Hr & ->)]]];
      simpl.
    + eexists. split; [reflexivity|]. intros c' [H|[H|[]]]; discriminate.
    + exists []. rewrite app_nil_r. split; [reflexivity|]. intros c' [].
    + unfold connecting, new_conn, MCPConnection_new. simpl.
      rewrite <- !app_assoc. eexists. split; [reflexivity|].
      intros c' [[= <-]|[H|[H|[]]]]; try discriminate. exists s. exact Hr.
    + unfold connecting, new_conn, MCPConnection_new. simpl.
      rewrite <- !app_assoc. eexists. split; [reflexivity|].
      intros c' [[= <-]|[H|[H|[H|[H|[]]]]]]; try discriminate. exists s. exact Hr.
  - destruct (aclose_events_close w self sys) as (es & Ht & Hf).
    destruct (aclose w self sys) as [[res self'] sys']. simpl in *.
    exists es. split; [exact Ht|]. intros c Hin.
    rewrite List.Forall_forall in Hf. apply Hf in Hin. discriminate.
  - unfold aexit. destruct (aclose_events_close w self sys) as (es & Ht & Hf).
    destruct (aclose w self sys) as [[res self'] sys']. simpl in *.
    exists es. split; [exact Ht|]. intros c Hin.
    rewrite List.Forall_forall in Hf. apply Hf in Hin. discriminate.
Qed.

Lemma run_ops_new_registered (w : World) (ops : list op) :
  forall self sys,
  exists es,
    trace (snd (run_ops w ops (self, sys))) = trace sys ++ es /\
    forall c, In (EvConnNew c) es -> exists s, servers self !! s = Some (conn_server c).
Proof.
  induction ops as [|o rest IH]; intros self sys.
  - exists []. simpl. rewrite app_nil_r. split; [reflexivity|]. intros c [].
  - rewrite run_ops_cons.
    destruct (run_op_new_registered w o self sys) as (es1 & Ht1 & H1).
    destruct (run_op_frame w o self sys) as (Hs & _).
    destruct (run_op w o (self, sys)) as [self1 sys1]. simpl in *.
    destruct (IH self1 sys1) as (es2 & Ht2 & H2).
    exists (es1 ++ es2). rewrite Ht2, Ht1, <- app_assoc. split; [reflexivity|].
    intros c Hin. apply in_app_or in Hin as [Hin|Hin]; [auto|].
    rewrite <- Hs. auto.
Qed.

(** X11.  Whatever operations run, from whatever state, every Connection
    object the Router makes is made for a Server of its registry: the Router
    never builds a connection to an undeclared server. *)
Theorem connections_made_from_registry (w : World) (ops : list op) (self : Router)
    (sys : Sys) (c : Connection) :
  In (EvConnNew c) (events_since sys (snd (run_ops w ops (self, sys)))) ->
  exists s, servers self !! s = Some (conn_server c).
Proof.
  destruct (run_ops_new_registered w ops self sys) as (es & Ht & H).
  rewrite (events_since_app _ _ _ Ht). apply H.
Qed.

Lemma connections_made_from_registry_witness :
  exists s, servers Sample.router !! s = Some (conn_server (Sample.conn_b 1)).
Proof.
  apply (connections_made_from_registry Sample.world
           [OpCallTool "a" "t" None; OpCallTool "b" "t" None]
           Sample.router Sample.sys (Sample.conn_b 1)).
  vm_compute. auto 10.
Defined.







(** ** Construction, then use *)

(** X13.  The first call for a configured server, on a Router just
    constructed, makes the first Connection object of the Router, for the
    Server built from an entry of that name, and invokes [connect] on it. *)
Theorem first_call_connects_configured_server (w : World) (arg : ConfigArg)
    (sys sys1 : Sys) (self : Router) (name t : string) (p : option Params) :
  Router_init w arg sys = (inr self, sys1) ->
  In name (map fst (default [] (mcpServers (config self)))) ->
  exists srv data rest,
    In (name, data) (default [] (mcpServers (config self))) /\
    server_config_new w name data = Some (srv_config srv) /\
    srv_name srv = name /\
    trace (snd (call_tool w self name t p sys1))
    = trace sys1
      ++ EvConnNew {| conn_id := next_conn sys; conn_server := srv |}
      :: EvConnect {| conn_id := next_conn sys; conn_server := srv |} :: rest.
Proof.
  intros Hinit Hname.
  pose proof (Router_init_inr w arg sys sys1 self Hinit) as Hpool.
  destruct (quiet_Router_init w arg sys) as (es & _ & _ & Hn).
  rewrite Hinit in Hn. simpl in Hn.
  apply Router_init_inv in Hinit as (cfg & srvs & s1 & s2 & _ & Hb & _ & Hr).
  apply init_runtime_inr in Hr as (_ & Hs & Hc). rewrite Hc in *.
  apply build_servers_spec in Hb as [Hdom Hval].
  assert (Hsome : is_Some (srvs !! name)) by (apply Hdom; auto).
  destruct Hsome as [srv Hsrv].
  destruct (Hval name srv Hsrv) as [Hacc|(data & sc & Hin & Hsc & ->)].
  { rewrite lookup_empty in Hacc. discriminate. }
  exists {| srv_name := name; srv_config := sc |}, data.
  assert (Hp : dict_get name (connections self) = None) by (rewrite Hpool; reflexivity).
  rewrite <- Hs in Hsrv.
  destruct (call_tool_cases w self name t p sys1)
    as [(c & res & Hp' & _)|[(_ & Hr' & _)|[(srv' & _ & Hr' & ->)|(srv' & res & _ & Hr' & ->)]]];
    try congruence.
  - rewrite Hsrv in Hr'. injection Hr' as <-.
    unfold connecting, new_conn, MCPConnection_new. simpl.
    rewrite <- !app_assoc, Hn. eexists. auto.
  - rewrite Hsrv in Hr'. injection Hr' as <-.
    unfold connecting, new_conn, MCPConnection_new. simpl.
    rewrite <- !app_assoc, Hn. eexists. auto.
Qed.

Lemma first_call_connects_configured_server_witness :
  exists srv data rest,
    In ("b", data) (default [] (mcpServers (config Sample.router))) /\
    server_config_new Sample.world "b" data = Some (srv_config srv) /\
    srv_name srv = "b" /\
    trace (snd (call_tool Sample.world Sample.router "b" "t" None
                  (snd (Router_init Sample.world (ArgDict Sample.cfg) Sample.sys))))
    = trace (snd (Router_init Sample.world (ArgDict Sample.cfg) Sample.sys))
      ++ EvConnNew {| conn_id := next_conn Sample.sys; conn_server := srv |}
      :: EvConnect {| conn_id := next_conn Sample.sys; conn_server := srv |} :: rest.
Proof.
  apply (first_call_connects_configured_server Sample.world (ArgDict Sample.cfg)
           Sample.sys _ Sample.router "b" "t" None).
  - vm_compute. reflexivity.
  - vm_compute. auto.
Defined.

(** X14.  A shutdown right after construction has nothing to close: it
    returns normally, leaves the Router as it is and does nothing to the
    outside. *)
Theorem aclose_after_construction (w : World) (arg : ConfigArg) (sys sys1 : Sys)
    (self : Router) :
  Router_init w arg sys = (inr self, sys1) ->
  fst (aclose w self sys1) = (inr tt, self) /\
  events_since sys1 (snd (aclose w self sys1)) = [].
Proof.
  intros Hinit. apply Router_init_inr in Hinit.
  unfold aclose. rewrite Hinit. simpl. split; [reflexivity|].
  apply events_since_app. simpl. rewrite app_nil_r. reflexivity.
Qed.

Lemma aclose_after_construction_witness :
  fst (aclose Sample.world Sample.router
         (snd (Router_init Sample.world (ArgDict Sample.cfg) Sample.sys)))
  = (inr tt, Sample.router).
Proof.
  apply (aclose_after_construction Sample.world (ArgDict Sample.cfg) Sample.sys).
  vm_compute. reflexivity.
Defined.

(** ** More about shutdown *)

Lemma run_ops_close_again (w : World) (self : Router) (n : nat) :
  NoDup (map conn_id (dict_values (connections self))) ->
  forall sys,
    fst (run_ops w (replicate n OpClose) (self, sys)) = self /\
    exists es,
      trace (snd (run_ops w (replicate n OpClose) (self, sys))) = trace sys ++ es /\
      forall c,
        In c (dict_values (connections self)) ->
        count (is_close_of (conn_id c)) es = n.
Proof.
  intros Hnd. induction n as [|n IH]; intros sys.
  - simpl. split; [reflexivity|]. exists []. rewrite app_nil_r. auto.
  - rewrite replicate_S, run_ops_cons.
    assert (Hstep : run_op w OpClose (self, sys) = (self, snd (aclose w self sys))).
    { unfold run_op. pose proof (aclose_self w self sys) as Hs.
      destruct (aclose w self sys) as [[res self'] sys']. simpl in *. congruence. }
    rewrite Hstep.
    destruct (aclose_trace w self sys) as (done & Ht & Hf).
    destruct (IH (snd (aclose w self sys))) as (Hself & es & Ht' & Hcount).
    split; [exact Hself|].
    exists ((map EvClose (dict_values (connections self)) ++ done) ++ es).
    split; [rewrite Ht', Ht, <- !app_assoc; reflexivity|].
    intros c Hc. rewrite !count_app, (count_close_once c _ Hnd Hc), (Hcount c Hc).
    rewrite (count_none _ done); [lia|].
    eapply Forall_impl; [exact Hf|]. intros [] He; simpl in *; congruence.
Qed.

(** X15.  Shutdown does not remember that it ran: starting from an empty
    pool and after any operations, [n] shutdowns in a row leave the pool as it
    was and invoke close [n] times on each pooled connection. *)
Theorem aclose_repeated_closes_again (w : World) (ops : list op) (self0 : Router)
    (sys0 : Sys) (n : nat) (c : Connection) :
  let st := run_ops w ops (self0, sys0) in
  let st' := run_ops w (replicate n OpClose) st in
  connections self0 = [] ->
  In c (dict_values (connections (fst st))) ->
  fst st' = fst st /\
  count (is_close_of (conn_id c)) (events_since (snd st) (snd st')) = n.
Proof.
  intros st st' Hempty Hc.
  assert (Hok : pool_ok (fst st) (snd st)).
  { apply run_ops_pool_ok, pool_ok_empty, Hempty. }
  unfold st'. clearbody st. destruct st as [self sys]. simpl in *.
  destruct (run_ops_close_again w self n (proj1 Hok) sys)
    as (Hself & es & Ht & Hcount).
  split; [exact Hself|].
  rewrite (events_since_app _ _ _ Ht). apply Hcount. exact Hc.
Qed.

Lemma aclose_repeated_closes_again_witness :
  count (is_close_of 0)
    (events_since
       (snd (run_ops Sample.world [OpCallTool "a" "t" None] (Sample.router, Sample.sys)))
       (snd (run_ops Sample.world (replicate 3 OpClose)
               (run_ops Sample.world [OpCallTool "a" "t" None]
                  (Sample.router, Sample.sys)))))
  = 3.
Proof.
  apply (aclose_repeated_closes_again Sample.world [OpCallTool "a" "t" None]
           Sample.router Sample.sys 3 (Sample.conn_a 0)).
  - reflexivity.
  - vm_compute. auto.
Defined.

Lemma gather_wait_all_ok (w : World) (pending : list Connection) :
  (forall tr c, In c pending -> close_ok w tr c = true) ->
  forall sys, fst (gather_wait w pending sys) = inr tt.
Proof.
  induction pending as [|c rest IH]; intros Hok sys; simpl; [reflexivity|].
  rewrite Hok by (left; reflexivity). apply IH.
  intros tr c' Hc'. apply Hok. right. exact Hc'.
Qed.

Lemma aclose_all_closes_aux (w : World) (self : Router) (sys : Sys) :
  (forall tr c, In c (dict_values (connections self)) -> close_ok w tr c = true) ->
  fst (fst (aclose w self sys)) = inr tt /\
  forall c,
    In c (dict_values (connections self)) ->
    In (EvClosed c true) (events_since sys (snd (aclose w self sys))).
Proof.
  intros Hok.
  assert (Hres : fst (fst (aclose w self sys)) = inr tt).
  { unfold aclose.
    pose proof (gather_wait_all_ok w
                  (completion_order
                     (close_time w (trace (emit_all (map EvClose (dict_values (connections self))) sys)))
                     (dict_values (connections self)))) as H.
    destruct (gather_wait w _ _) as [res sys2] eqn:E. simpl.
    specialize (H (fun tr c Hc =>
                     Hok tr c (Permutation_in c (completion_order_perm _ _) Hc))
                  (emit_all (map EvClose (dict_values (connections self))) sys)).
    rewrite E in H. exact H. }
  split; [exact Hres|].
  destruct (aclose_spec w self sys) as (done & Ht & _ & Hr).
  rewrite Hres in Hr. intros c Hc.
  rewrite (events_since_app _ _ _ Ht). apply in_or_app. right.
  eapply Permutation_in; [symmetry; exact Hr|].
  apply (in_map closed_ok). exact Hc.
Qed.

(** X16.  When the close of every pooled connection succeeds, shutdown
    returns normally, and by then every one of those closes has been seen to
    finish well. *)
Theorem aclose_all_closes_succeed (w : World) (self : Router) (sys : Sys) :
  (forall tr c, In c (dict_values (connections self)) -> close_ok w tr c = true) ->
  fst (fst (aclose w self sys)) = inr tt /\
  forall c,
    In c (dict_values (connections self)) ->
    In (EvClosed c true) (events_since sys (snd (aclose w self sys))).
Proof.
  apply aclose_all_closes_aux.
Qed.

Lemma aclose_all_closes_succeed_witness :
  fst (fst (aclose Sample.world
              (fst (run_ops Sample.world
                      [OpCallTool "a" "t" None; OpCallTool "b" "t" None]
                      (Sample.router, Sample.sys)))
              Sample.sys))
  = inr tt.
Proof.
  apply (aclose_all_closes_succeed Sample.world).
  intros tr c Hc. reflexivity.
Defined.

Lemma insert_by_time_sorted (t : Connection -> nat) (c : Connection)
    (l : list Connection) :
  StronglySorted (fun a b => t a <= t b) l ->
  StronglySorted (fun a b => t a <= t b) (insert_by_time t c l).
Proof.
  induction 1 as [|c' rest Hs IH Hall]; simpl.
  - repeat constructor.
  - destruct (Nat.leb_spec (t c) (t c')) as [Hle|Hlt].
    + constructor; [constructor; assumption|].
      constructor; [exact Hle|].
      eapply Forall_impl; [exact Hall|]. simpl. intros x Hx. lia.
    + constructor; [exact IH|].
      rewrite List.Forall_forall. intros x Hx.
      eapply Permutation_in in Hx; [|apply insert_by_time_perm].
      destruct Hx as [<-|Hx]; [lia|].
      rewrite List.Forall_forall in Hall. apply Hall. exact Hx.
Qed.

(** The order of completion is the order of the finishing times. *)
Lemma completion_order_sorted (t : Connection -> nat) (l : list Connection) :
  StronglySorted (fun a b => t a <= t b) (completion_order t l).
Proof.
  induction l as [|c rest IH]; simpl; [constructor|].
  apply insert_by_time_sorted. exact IH.
Qed.

Lemma sorted_split (t : Connection -> nat) (before after : list Connection)
    (c : Connection) :
  StronglySorted (fun a b => t a <= t b) (before ++ c :: after) ->
  forall x, In x after -> t c <= t x.
Proof.
  induction before as [|b rest IH]; simpl; intros Hs x Hx.
  - apply StronglySorted_inv in Hs as [_ Hall].
    rewrite List.Forall_forall in Hall. apply Hall. exact Hx.
  - apply StronglySorted_inv in Hs as [Hs _]. exact (IH Hs x Hx).
Qed.

Lemma gather_wait_failure (w : World) (pending : list Connection) :
  forall sys e,
    fst (gather_wait w pending sys) = inl e ->
    exists before c after tr,
      pending = before ++ c :: after /\ e = CloseError c /\
      close_ok w tr c = false /\
      Forall (fun b => exists tr', close_ok w tr' b = true) before.
Proof.
  induction pending as [|c rest IH]; intros sys e; simpl; [discriminate|].
  destruct (close_ok w (trace sys) c) eqn:E.
  - intros H. apply IH in H as (before & c' & after & tr & -> & -> & Hc & Hb).
    exists (c :: before), c', after, tr. repeat split; auto.
    constructor; [eauto|exact Hb].
  - simpl. intros [= <-]. exists [], c, rest, (trace sys). auto.
Qed.

(** X17.  Which failure shutdown reports.  When the outcome of a close does
    not depend on what else happened, the exception [aclose] raises is that
    of a pooled connection whose close fails, and no pooled connection whose
    close fails finishes earlier than it. *)
Theorem aclose_reports_earliest_failure (w : World) (self : Router) (sys : Sys)
    (c : Connection) :
  let conns := dict_values (connections self) in
  let started := trace sys ++ map EvClose conns in
  (forall tr tr' x, close_ok w tr x = close_ok w tr' x) ->
  fst (fst (aclose w self sys)) = inl (CloseError c) ->
  In c conns /\ close_ok w started c = false /\
  forall c',
    In c' conns -> close_ok w started c' = false ->
    close_time w started c <= close_time w started c'.
Proof.
  intros conns started Hind Hres. unfold aclose in Hres. fold conns in Hres.
  change (trace (emit_all (map EvClose conns) sys)) with started in Hres.
  set (order := completion_order (close_time w started) conns) in *.
  assert (Hperm : Permutation order conns) by apply completion_order_perm.
  assert (Hsorted : StronglySorted
                      (fun a b => close_time w started a <= close_time w started b) order)
    by apply completion_order_sorted.
  destruct (gather_wait w order _) as [res sys2] eqn:E. simpl in Hres. subst res.
  pose proof (gather_wait_failure w order (emit_all (map EvClose conns) sys)
                (CloseError c)) as H.
  rewrite E in H. destruct (H eq_refl) as (before & c0 & after & tr & Ho & [= <-] & Hc & Hb).
  rewrite Ho in Hperm, Hsorted.
  split; [|split].
  - eapply Permutation_in; [exact Hperm|]. apply in_or_app. right. left. reflexivity.
  - rewrite (Hind started tr). exact Hc.
  - intros c' Hin Hfail.
    eapply Permutation_in in Hin; [|symmetry; exact Hperm].
    apply in_app_or in Hin as [Hin|[<-|Hin]].
    + rewrite List.Forall_forall in Hb. destruct (Hb c' Hin) as [tr' Hok].
      rewrite (Hind started tr') in Hfail. congruence.
    + lia.
    + eapply sorted_split; [exact Hsorted|exact Hin].
Qed.

Lemma aclose_reports_earliest_failure_witness :
  In (Sample.conn_a 0)
    (dict_values
       (connections
          (fst (run_ops Sample.world_close_fails
                  [OpCallTool "a" "t" None; OpCallTool "b" "t" None]
                  (Sample.router, Sample.sys))))).
Proof.
  apply (aclose_reports_earliest_failure Sample.world_close_fails
           (fst (run_ops Sample.world_close_fails
                   [OpCallTool "a" "t" None; OpCallTool "b" "t" None]
                   (Sample.router, Sample.sys)))
           Sample.sys (Sample.conn_a 0)).
  - intros tr tr' x. reflexivity.
  - vm_compute. reflexivity.
Defined.

(** ** The scope and the race, to their end *)



Lemma dict_set_overwrite (k : string) (a b : Connection) (d : Pool) :
  dict_get k d = None -> dict_set k b (dict_set k a d) = d ++ [(k, b)].
Proof.
  induction d as [|[k' v'] rest IH]; simpl.
  - rewrite String.eqb_refl. reflexivity.
  - destruct (String.eqb k k') eqn:E; [discriminate|].
    intros H. simpl. rewrite E, IH by exact H. reflexivity.
Qed.

(** X19.  The Connection that loses the race is lost: after the two calls of
    C9 have both stored, the handshake of the first Connection has succeeded
    but the pool no longer holds it, so a shutdown closes the second
    Connection once and never invokes close on the first. *)
Theorem race_loser_never_closed (w : World) (self : Router) (sys : Sys)
    (s ta tb : string) (pa pb : option Params) (srv : Server) :
  let ca := {| conn_id := next_conn sys; conn_server := srv |} in
  let cb := {| conn_id := S (next_conn sys); conn_server := srv |} in
  let final :=
    interleave w [true; false; true; false] (CallStart s ta pa) (CallStart s tb pb)
      self sys in
  let out := aclose w (snd (fst final)) (snd final) in
  pool_ok self sys ->
  dict_get s (connections self) = None ->
  servers self !! s = Some srv ->
  (forall tr c, connect_ok w tr c = true) ->
  In (EvConnected ca true) (events_since sys (snd final)) /\
  count (is_close_of (conn_id ca)) (events_since (snd final) (snd out)) = 0 /\
  count (is_close_of (conn_id cb)) (events_since (snd final) (snd out)) = 1.
Proof.
  intros ca cb final out [Hnd Hlt] Hp Hr Hok.
  assert (Hfinal : exists sys4 rest,
             final = (AwaitCall ca ta (default [] pa), AwaitCall cb tb (default [] pb),
                      set_connections self (connections self ++ [(s, cb)]), sys4) /\
             trace sys4 = trace sys ++ EvConnNew ca :: EvConnect ca :: EvConnNew cb
                            :: EvConnect cb :: EvConnected ca true :: rest).
  { unfold final. cbn [interleave].
    rewrite (resume_start_absent w self sys s ta pa srv Hp Hr).
    rewrite (resume_start_absent w self (connecting srv sys) s tb pb srv Hp Hr).
    change (new_conn srv sys) with ca.
    change (new_conn srv (connecting srv sys)) with cb.
    rewrite !resume_connected by apply Hok.
    cbn [connections set_connections]. rewrite (dict_set_overwrite s ca cb _ Hp).
    do 2 eexists. split; [reflexivity|].
    rewrite !trace_emit, !trace_connecting, <- !app_assoc. reflexivity. }
  destruct Hfinal as (sys4 & rest & Hfinal & Ht4).
  unfold out. rewrite Hfinal. cbn [fst snd].
  destruct (aclose_trace w (set_connections self (connections self ++ [(s, cb)])) sys4)
    as (done & Ht & Hf).
  cbn [connections set_connections] in Ht.
  assert (Hdone : forall n, count (is_close_of n) done = 0).
  { intros n. apply count_none. eapply Forall_impl; [exact Hf|].
    intros [] He; simpl in *; congruence. }
  assert (Hvals : dict_values (connections self ++ [(s, cb)])
                  = dict_values (connections self) ++ [cb]).
  { unfold dict_values. rewrite map_app. reflexivity. }
  rewrite Hvals in Ht.
  assert (Hold : forall n, next_conn sys <= n ->
                           ~ In n (map conn_id (dict_values (connections self)))).
  { intros n Hn Hin. apply in_map_iff in Hin as (c & Hc & Hin).
    rewrite List.Forall_forall in Hlt. apply Hlt in Hin. lia. }
  split; [|split].
  - rewrite (events_since_app _ _ _ Ht4). simpl. auto 10.
  - rewrite (events_since_app _ _ _ Ht), count_app, Hdone, Nat.add_0_r.
    apply count_close_absent. rewrite map_app. intros Hin.
    apply in_app_or in Hin as [Hin|[Hin|[]]].
    + apply (Hold (conn_id ca)); [simpl; lia|exact Hin].
    + simpl in Hin. lia.
  - rewrite (events_since_app _ _ _ Ht), count_app, Hdone, Nat.add_0_r.
    apply count_close_once.
    + rewrite map_app. apply NoDup_app. split; [exact Hnd|].
      split; [|apply NoDup_singleton].
      intros n Hn Hn'. apply list_elem_of_singleton in Hn'. subst n.
      apply list_elem_of_In in Hn. apply (Hold (conn_id cb)); [simpl; lia|exact Hn].
    + apply in_or_app. right. left. reflexivity.
Qed.

Lemma race_loser_never_closed_witness :
  count (is_close_of 0)
    (events_since
       (snd (interleave Sample.world [true; false; true; false]
               (CallStart "a" "t1" None) (CallStart "a" "t2" None)
               Sample.router Sample.sys))
       (snd (aclose Sample.world
               (snd (fst (interleave Sample.world [true; false; true; false]
                            (CallStart "a" "t1" None) (CallStart "a" "t2" None)
                            Sample.router Sample.sys)))
               (snd (interleave Sample.world [true; false; true; false]
                       (CallStart "a" "t1" None) (CallStart "a" "t2" None)
                       Sample.router Sample.sys)))))
  = 0.
Proof.
  apply (race_loser_never_closed Sample.world Sample.router Sample.sys "a" "t1" "t2"
           None None Sample.srv_a).
  - apply pool_ok_empty. reflexivity.
  - reflexivity.
  - vm_compute. reflexivity.
  - intros tr c. reflexivity.
Defined.

(** ** Calls in flight for different servers *)

Lemma call_agrees_frame (s : string) (k : Coro) (self self1 : Router) :
  dict_get s (connections self1) = dict_get s (connections self) ->
  call_agrees s k self -> call_agrees s k self1.
Proof.
  intros H. destruct k; simpl; rewrite ?H; auto.
Qed.

(** A run of a call for [s] keeps it in agreement with the pool. *)
Lemma resume_agrees (w : World) (s : string) (k : Coro) (self : Router) (sys : Sys) :
  call_agrees s k self ->
  call_agrees s (fst (fst (resume w k self sys))) (snd (fst (resume w k self sys))).
Proof.
  destruct k as [s' t p|s' t p c|c t p|r|e]; simpl.
  - intros ->. destruct (dict_get s (connections self)) as [c|] eqn:Hp; simpl; [exact Hp|].
    destruct (servers self !! s); simpl; auto.
  - intros ->. destruct (connect_ok w (trace sys) c); simpl; [|exact I].
    apply dict_get_set_eq.
  - intros H. destruct (call_result w (trace sys) c t p); simpl; [|exact I].
    rewrite H. eauto.
  - auto.
  - auto.
Qed.

(** A run of a call for [s] leaves the pool entries of the other servers. *)
Lemma resume_frame (w : World) (s s' : string) (k : Coro) (self : Router) (sys : Sys) :
  call_agrees s k self ->
  s <> s' ->
  dict_get s' (connections (snd (fst (resume w k self sys))))
  = dict_get s' (connections self).
Proof.
  intros Hk Hne. destruct k as [s0 t p|s0 t p c|c t p|r|e]; simpl in *.
  - destruct (dict_get s0 (connections self)); simpl; [reflexivity|].
    destruct (servers self !! s0); reflexivity.
  - subst s0. destruct (connect_ok w (trace sys) c); simpl; [|reflexivity].
    apply dict_get_set_ne. exact Hne.
  - reflexivity.
  - reflexivity.
  - reflexivity.
Qed.

Lemma interleave_agrees (w : World) (sa sb : string) (schedule : list bool) :
  sa <> sb ->
  forall ka kb self sys,
    call_agrees sa ka self ->
    call_agrees sb kb self ->
    call_agrees sa (fst (fst (fst (interleave w schedule ka kb self sys))))
      (snd (fst (interleave w schedule ka kb self sys))) /\
    call_agrees sb (snd (fst (fst (interleave w schedule ka kb self sys))))
      (snd (fst (interleave w schedule ka kb self sys))).
Proof.
  intros Hne. induction schedule as [|[|] rest IH]; intros ka kb self sys Ha Hb.
  - simpl. auto.
  - cbn [interleave].
    pose proof (resume_agrees w sa ka self sys Ha) as Ha'.
    pose proof (resume_frame w sa sb ka self sys Ha Hne) as Hf.
    destruct (resume w ka self sys) as [[ka' self'] sys']. simpl in *.
    apply IH; [exact Ha'|]. eapply call_agrees_frame; [exact Hf|exact Hb].
  - cbn [interleave].
    pose proof (resume_agrees w sb kb self sys Hb) as Hb'.
    pose proof (resume_frame w sb sa kb self sys Hb (not_eq_sym Hne)) as Hf.
    destruct (resume w kb self sys) as [[kb' self'] sys']. simpl in *.
    apply IH; [|exact Hb']. eapply call_agrees_frame; [exact Hf|exact Ha].
Qed.

(** X20.  Two calls in flight for different servers do not disturb each
    other, however the event loop interleaves them: at every point each call
    agrees with the pool, so a call that is past its handshake goes on with
    the Connection pooled for its own server, and a call that has returned
    has left its server pooled. *)
Theorem calls_for_different_servers_agree (w : World) (schedule : list bool)
    (self : Router) (sys : Sys) (sa sb ta tb : string) (pa pb : option Params) :
  let st := interleave w schedule (CallStart sa ta pa) (CallStart sb tb pb) self sys in
  sa <> sb ->
  call_agrees sa (fst (fst (fst st))) (snd (fst st)) /\
  call_agrees sb (snd (fst (fst st))) (snd (fst st)).
Proof.
  intros st Hne. apply interleave_agrees; [exact Hne|reflexivity|reflexivity].
Qed.

Lemma calls_for_different_servers_agree_witness :
  call_agrees "a"
    (fst (fst (fst (interleave Sample.world [true; false; false; true; true; false]
                      (CallStart "a" "t1" None) (CallStart "b" "t2" None)
                      Sample.router Sample.sys))))
    (snd (fst (interleave Sample.world [true; false; false; true; true; false]
                 (CallStart "a" "t1" None) (CallStart "b" "t2" None)
                 Sample.router Sample.sys))).
Proof.
  apply (calls_for_different_servers_agree Sample.world
           [true; false; false; true; true; false] Sample.router Sample.sys
           "a" "b" "t1" "t2" None None).
  discriminate.
Defined.
